(** * Drowsiness monitor (project.py): a shallow embedding and its properties

    The script reads camera frames, asks dlib for faces and their 68
    landmarks, builds the two eye contours, classifies each eye with
    [eyes_closed] and starts the pygame alarm when both eyes are closed.

    - Landmark coordinates are C [long]s; [np.array] stores them as int64,
      so the row subtraction of [eyes_closed] wraps around at 64 bits.
    - [np.linalg.norm] converts to float64 and takes the square root of the
      dot product: [norm_f64] is that computation on binary64 numbers, and
      [closure_score_f64] the score the script holds.  [norm] is the exact
      real number of which [norm_f64] is the rounding, and [closure_score]
      the exact score.  The comparison with the integer literal 15 is
      decided on the integers ([norm_ltb]); it is proved equivalent to the
      comparison of the exact score and evaluated against the binary64
      comparison on all row differences around the threshold.
    - The external services (camera, detector, predictor, display, mixer)
      are scripted: every call of the loop takes its answer, a value or a
      raised exception, from the [world]. *)

From Stdlib Require Import ZArith List Bool Lia Reals Lra Permutation.
From Stdlib Require Floats.PrimFloat Floats.FloatOps Floats.SpecFloat.
From Stdlib Require Numbers.Cyclic.Int63.Uint63.
From Stdlib Require String.
Import String.StringSyntax.
Delimit Scope string_scope with string.
Import ListNotations.

Local Open Scope Z_scope.

(** ** Exceptions and results *)

Inductive exn : Type :=
| KeyboardInterrupt
| IndexError
| ExternalError (msg : String.string).

Inductive res (A : Type) : Type :=
| Ok (a : A)
| Raise (e : exn).

Arguments Ok {A} a.
Arguments Raise {A} e.

Definition res_bind {A B : Type} (r : res A) (k : A -> res B) : res B :=
  match r with
  | Ok a => k a
  | Raise e => Raise e
  end.

Declare Scope res_scope.
Delimit Scope res_scope with res.
Notation "x <- r ;; k" := (res_bind r (fun x => k))
  (at level 100, r at next level, right associativity) : res_scope.
Notation "' pat <- r ;; k" := (res_bind r (fun x => match x with pat => k end))
  (at level 100, pat pattern, r at next level, right associativity) : res_scope.

(** ** numpy rows of int64 *)

(** One row [(x, y)] of the [(6, 2)] integer array of an eye. *)
Definition point : Type := (Z * Z)%type.

Module Np.

(** Two's complement wrap-around of int64 arithmetic. *)
Definition wrap64 (z : Z) : Z := (z + 2 ^ 63) mod 2 ^ 64 - 2 ^ 63.

(** [a - b] on two rows. *)
Definition sub (a b : point) : point :=
  (wrap64 (fst a - fst b), wrap64 (snd a - snd b)).

(** [x.dot(x)], on the exact integers. *)
Definition sqnorm (v : point) : Z := fst v * fst v + snd v * snd v.

(** The exact Euclidean norm of the row, a real number: the value that
    [np.linalg.norm(v)] rounds to binary64 (see [norm_f64]). *)
Definition norm (v : point) : R := sqrt (IZR (sqnorm v)).

(** [np.linalg.norm(v) < t] for an integer literal [t], decided without
    leaving the integers (see [norm_ltb_spec]). *)
Definition norm_ltb (v : point) (t : Z) : bool :=
  (0 <? t) && (sqnorm v <? t * t).

(** The binary64 number nearest to a magnitude of at most [2 ^ 63]; the
    63-bit conversion covers all of them but [2 ^ 63] itself, which is
    twice the exact [2 ^ 62]. *)
Definition f64_of_nonneg (a : Z) : PrimFloat.float :=
  if a <? 2 ^ 63 then PrimFloat.of_uint63 (Uint63.of_Z a)
  else PrimFloat.mul (PrimFloat.of_uint63 (Uint63.of_Z (a / 2)))
                     (PrimFloat.of_uint63 (Uint63.of_Z 2)).

(** [astype(float)] on one int64 entry: round to nearest, ties to even
    (exact up to [2 ^ 53]). *)
Definition f64_of_int (z : Z) : PrimFloat.float :=
  if z <? 0 then PrimFloat.opp (f64_of_nonneg (- z)) else f64_of_nonneg z.

(** [np.linalg.norm(v)] as numpy computes it, in binary64:
    [sqrt(x.dot(x))] on the converted row. *)
Definition norm_f64 (v : point) : PrimFloat.float :=
  let x := f64_of_int (fst v) in
  let y := f64_of_int (snd v) in
  PrimFloat.sqrt (PrimFloat.add (PrimFloat.mul x x) (PrimFloat.mul y y)).

(** [a[i]]: indexing the first axis; out of range raises IndexError. *)
Definition index {A : Type} (a : list A) (i : nat) : res A :=
  match nth_error a i with
  | Some x => Ok x
  | None => Raise IndexError
  end.

End Np.

(** ** eyes_closed *)

(** The literal [15] of [eyes_closed]. *)
Definition threshold : Z := 15.


(** The exact value of that scalar, before the rounding of the binary64
    operations. *)
Definition closure_score (eye_points : list point) : res R :=
  (left_eye <- Np.index eye_points 0 ;;
   right_eye <- Np.index eye_points 1 ;;
   Ok (Np.norm (Np.sub left_eye right_eye)))%res.

(** [def eyes_closed(eye_points)] *)
Definition eyes_closed (eye_points : list point) : res bool :=
  (left_eye <- Np.index eye_points 0 ;;
   right_eye <- Np.index eye_points 1 ;;
   Ok (Np.norm_ltb (Np.sub left_eye right_eye) threshold))%res.

(** [a and b]: [b] is evaluated only when [a] is true, else [a] is the
    value. *)
Definition py_and (a b : res bool) : res bool :=
  (x <- a ;; if x then b else Ok x)%res.

(** ** Landmarks and the two eye contours *)

(** A [dlib.full_object_detection]: its parts, in index order. *)
Definition landmarks : Type := list point.

(** [landmarks.part(i)], read as the pair [(part(i).x, part(i).y)]; dlib
    raises IndexError when [i] is not below [num_parts]. *)
Definition part (lm : landmarks) (i : nat) : res point := Np.index lm i.

(** [np.array([(part(i).x, part(i).y), ...])], the rows evaluated from left
    to right. *)
Fixpoint parts (lm : landmarks) (idxs : list nat) : res (list point) :=
  match idxs with
  | [] => Ok []
  | i :: rest =>
      (p <- part lm i ;;
       ps <- parts lm rest ;;
       Ok (p :: ps))%res
  end.

Definition left_eye_indices : list nat := [36; 37; 38; 39; 40; 41]%nat.
Definition right_eye_indices : list nat := [42; 43; 44; 45; 46; 47]%nat.

(** The two [np.array] constructions of the per-face branch. *)
Definition extract_eyes (lm : landmarks) : res (list point * list point) :=
  (left_eye <- parts lm left_eye_indices ;;
   right_eye <- parts lm right_eye_indices ;;
   Ok (left_eye, right_eye))%res.

(** [eyes_closed(left_eye) and eyes_closed(right_eye)] *)
Definition both_closed (left_eye right_eye : list point) : res bool :=
  py_and (eyes_closed left_eye) (eyes_closed right_eye).

(** ** The external world and the effects of the loop *)

(** The calls the script makes on its collaborators.  [MusicStop] is
    [pygame.mixer.music.stop], part of the mixer's interface. *)
Inductive call : Type :=
| CapRead | CvtColor | Detect | Predict | Print | MusicPlay | MusicStop
| Imshow | WaitKey | CapRelease | DestroyAllWindows.

Definition call_eq_dec (a b : call) : {a = b} + {a <> b}.
Proof. decide equality. Defined.

(** What the mixer is doing and the calls made so far, newest first. *)
Record state : Type := mkState {
  playing : bool;
  log : list call
}.

Definition init : state := mkState false [].

Inductive AlarmState : Type := Silent | Sounding.

Definition alarm_state (s : state) : AlarmState :=
  if playing s then Sounding else Silent.

Definition count_call (c : call) (s : state) : nat :=
  count_occ call_eq_dec (log s) c.

(** Answers of the services to the calls made for one detected face. *)
Record face_in : Type := mkFace {
  predictor_r : res landmarks;
  print_r : res unit;
  play_r : res unit
}.

(** Answers of the services to the calls of one loop iteration. *)
Record frame_in : Type := mkFrame {
  read_r : res bool;
  cvtColor_r : res unit;
  detector_r : res (list face_in);
  imshow_r : res unit;
  waitKey_r : res Z
}.

Record world : Type := mkWorld {
  frames : list frame_in;
  release_r : res unit;
  destroyAllWindows_r : res unit
}.

(** State and exceptions: an exception keeps the effects made before it. *)
Definition M (A : Type) : Type := state -> res A * state.

Definition ret {A : Type} (a : A) : M A := fun s => (Ok a, s).

Definition bind {A B : Type} (m : M A) (k : A -> M B) : M B :=
  fun s =>
    match m s with
    | (Ok a, s') => k a s'
    | (Raise e, s') => (Raise e, s')
    end.

Definition lift {A : Type} (r : res A) : M A := fun s => (r, s).

Declare Scope eff_scope.
Delimit Scope eff_scope with eff.
Notation "x <- m ;; k" := (bind m (fun x => k))
  (at level 100, m at next level, right associativity) : eff_scope.
Notation "' pat <- m ;; k" := (bind m (fun x => match x with pat => k end))
  (at level 100, pat pattern, m at next level, right associativity) : eff_scope.
Notation "m ;; k" := (bind m (fun _ => k))
  (at level 100, right associativity) : eff_scope.

(** A call on a collaborator: logged, then answered by the world. *)
Definition extcall {A : Type} (c : call) (r : res A) : M A :=
  fun s => (r, mkState (playing s) (c :: log s)).

(** [pygame.mixer.music.play(-1)]: when it returns, the track is playing,
    looped for ever. *)
Definition music_play (r : res unit) : M unit :=
  fun s =>
    match r with
    | Ok _ => (Ok tt, mkState true (MusicPlay :: log s))
    | Raise e => (Raise e, mkState (playing s) (MusicPlay :: log s))
    end.

(** ** The frame pipeline *)

(** The body of [for face in faces]. *)
Definition process_face (f : face_in) : M unit :=
  (lm <- extcall Predict (predictor_r f) ;;
   '(left_eye, right_eye) <- lift (extract_eyes lm) ;;
   closed <- lift (both_closed left_eye right_eye) ;;
   if closed then
     extcall Print (print_r f) ;;
     music_play (play_r f)
   else ret tt)%eff.

Fixpoint for_faces (faces : list face_in) : M unit :=
  match faces with
  | [] => ret tt
  | f :: rest => (process_face f ;; for_faces rest)%eff
  end.

Inductive ctl : Type := Continue | Break.

(** [cv2.waitKey(1) & 0xFF == ord('q')] *)
Definition is_quit_key (k : Z) : bool := Z.land k 255 =? 113.

(** One iteration of [while True]. *)
Definition loop_body (fr : frame_in) : M ctl :=
  (ok <- extcall CapRead (read_r fr) ;;
   if negb ok then ret Break
   else
     extcall CvtColor (cvtColor_r fr) ;;
     faces <- extcall Detect (detector_r fr) ;;
     for_faces faces ;;
     extcall Imshow (imshow_r fr) ;;
     k <- extcall WaitKey (waitKey_r fr) ;;
     if is_quit_key k then ret Break else ret Continue)%eff.

(** How far the loop got on the frames the world supplies: it left by
    [break], or it is still iterating when they run out. *)
Inductive loop_end : Type := Exited | Iterating.

Fixpoint while_true (frs : list frame_in) : M loop_end :=
  match frs with
  | [] => ret Iterating
  | fr :: rest =>
      (c <- loop_body fr ;;
       match c with
       | Break => ret Exited
       | Continue => while_true rest
       end)%eff
  end.

(** The [finally] block. *)
Definition cleanup (w : world) : M unit :=
  (extcall CapRelease (release_r w) ;;
   extcall DestroyAllWindows (destroyAllWindows_r w))%eff.

(** The end of the script: it returned, it is still in the loop, or (as
    [Raise]) an exception left it. *)
Inductive outcome : Type := Returned | Running.

(** [try: while True: ... except KeyboardInterrupt: pass finally: ...] *)
Definition main (w : world) : M outcome :=
  fun s =>
    match while_true (frames w) s with
    | (Ok Iterating, s1) => (Ok Running, s1)
    | (Ok Exited, s1) => (cleanup w ;; ret Returned)%eff s1
    | (Raise KeyboardInterrupt, s1) => (cleanup w ;; ret Returned)%eff s1
    | (Raise e, s1) => (cleanup w ;; lift (Raise e))%eff s1
    end.

(** ** The per-frame signal, read off the world *)

(** The verdict the script reaches for one face; a face it cannot classify
    gives no signal. *)
Definition face_signal (f : face_in) : bool :=
  match predictor_r f with
  | Ok lm =>
      match extract_eyes lm with
      | Ok (left_eye, right_eye) =>
          match both_closed left_eye right_eye with
          | Ok b => b
          | Raise _ => false
          end
      | Raise _ => false
      end
  | Raise _ => false
  end.

(** DrowsinessSignal of a frame: some detected face has both eyes closed. *)
Definition frame_signal (fr : frame_in) : bool :=
  match detector_r fr with
  | Ok faces => existsb face_signal faces
  | Raise _ => false
  end.

(** ** Words of the specification *)

(** Euclidean distance of two points of the plane. *)
Definition euclid (p q : point) : R :=
  sqrt ((IZR (fst p) - IZR (fst q)) ^ 2 + (IZR (snd p) - IZR (snd q)) ^ 2)%R.

(** Coordinates whose differences fit int64; pixel coordinates are far
    inside. *)
Definition pixel (p : point) : Prop :=
  Z.abs (fst p) < 2 ^ 62 /\ Z.abs (snd p) < 2 ^ 62.

(** The contour moved by the offset [d]. *)
Definition translate (d : point) (eye_points : list point) : list point :=
  map (fun p => (fst p + fst d, snd p + snd d)) eye_points.

(** Scenario contours of the specification. *)
Definition scenario_A : list point :=
  [(0, 0); (0, 10); (1, 9); (2, 8); (2, 1); (1, 0)].

Definition scenario_B : list point :=
  [(0, 0); (0, 20); (2, 18); (4, 16); (4, 2); (2, 0)].

(** ** Observations on runs *)

(** Whatever the outcome of [m], the state reached is related by [R] to the
    state it started from. *)
Definition preserves (R : state -> state -> Prop) {A : Type} (m : M A) : Prop :=
  forall s, R s (snd (m s)).

Definition same_count (c : call) (s s' : state) : Prop :=
  count_call c s' = count_call c s.

(** Once the track plays it keeps playing. *)
Definition latch (s s' : state) : Prop :=
  playing s = true -> playing s' = true.

(** Neither the mixer nor the number of start commands changed. *)
Definition quiet (s s' : state) : Prop :=
  playing s' = playing s
  /\ count_call MusicPlay s' = count_call MusicPlay s.

(** The frame was read and every call of the iteration returned; [c] tells
    whether the loop goes on. *)
Definition processed (fr : frame_in) (s : state) (c : ctl) (s' : state) : Prop :=
  read_r fr = Ok true /\ loop_body fr s = (Ok c, s').

(** Number of detected faces of the frame that give the signal. *)
Definition drowsy_faces (fr : frame_in) : nat :=
  match detector_r fr with
  | Ok faces => length (filter face_signal faces)
  | Raise _ => 0%nat
  end.

Definition b2n (b : bool) : nat := if b then 1%nat else 0%nat.

(** The state [main] ends in, given the state in which the loop was left. *)
Definition after_cleanup (w : world) (s1 : state) : state :=
  match release_r w with
  | Ok _ => mkState (playing s1) (DestroyAllWindows :: CapRelease :: log s1)
  | Raise _ => mkState (playing s1) (CapRelease :: log s1)
  end.

(** The last call made, when there is one. *)
Definition last_call (s : state) : option call := hd_error (log s).

(** ** Sample worlds *)

(** A full set of 68 landmarks around the two given eye contours. *)
Definition sample_landmarks (left_eye right_eye : list point) : landmarks :=
  repeat (0, 0) 36 ++ left_eye ++ right_eye ++ repeat (0, 0) 20.

Definition face_of (lm : landmarks) : face_in := mkFace (Ok lm) (Ok tt) (Ok tt).

(** Both eyes closed; both open; left closed and right open. *)
Definition drowsy_face : face_in :=
  face_of (sample_landmarks scenario_A scenario_A).
Definition awake_face : face_in :=
  face_of (sample_landmarks scenario_B scenario_B).
Definition winking_face : face_in :=
  face_of (sample_landmarks scenario_A scenario_B).

(** A frame that is read and shown; [-1] is [waitKey] without a key. *)
Definition frame_of (faces : list face_in) (key : Z) : frame_in :=
  mkFrame (Ok true) (Ok tt) (Ok faces) (Ok tt) (Ok key).

Definition drowsy_frame : frame_in := frame_of [drowsy_face] (-1).
Definition winking_frame : frame_in := frame_of [winking_face; awake_face] (-1).

(** The detector fails on this frame. *)
Definition failing_frame : frame_in :=
  mkFrame (Ok true) (Ok tt) (Raise (ExternalError "detector"%string)) (Ok tt) (Ok (-1)).

(** The user presses [q] while a drowsy face is in view. *)
Definition quit_frame : frame_in := frame_of [drowsy_face] 113.

(** The mixer after one start command. *)
Definition sounding : state := mkState true [MusicPlay].

Definition world_of (frs : list frame_in) : world := mkWorld frs (Ok tt) (Ok tt).

(** Sixty landmarks, the eyes in their places; and ten landmarks. *)
Definition landmarks_60 : landmarks :=
  firstn 60 (sample_landmarks scenario_A scenario_B).
Definition landmarks_10 : landmarks := repeat (0, 0) 10.

(** The rows [(x, y)] with [|x|, |y| <= b]. *)
Definition box (b : Z) : list point :=
  let side := map (fun k => Z.of_nat k - b) (seq 0 (Z.to_nat (2 * b + 1))) in
  list_prod side side.

(** The point seen in a horizontally flipped image of the given width. *)
Definition mirror (width : Z) (p : point) : point :=
  (width - 1 - fst p, snd p).

(** Faces with both eyes closed over a sequence of frames. *)
Definition total_drowsy (frs : list frame_in) : nat :=
  list_sum (map drowsy_faces frs).

(** Faces detected over a sequence of frames. *)
Definition faces_of (fr : frame_in) : list face_in :=
  match detector_r fr with
  | Ok faces => faces
  | Raise _ => []
  end.

(** ** Binary64 numbers as real numbers *)





(** ** Service errors *)

(** The state right after the detector was called on the frame. *)
Definition after_detect (s : state) : state :=
  mkState (playing s) (Detect :: CvtColor :: CapRead :: log s).

(** The detector, or the predictor on some face, raises [e] during the
    iteration on [fr] started in [s]: [pre] are the faces of the frame
    processed before that, and the last component is the state at the
    failing call. *)
Inductive service_error (fr : frame_in) (s : state) (e : exn) :
  list face_in -> state -> Prop :=
| detector_error :
    read_r fr = Ok true -> cvtColor_r fr = Ok tt ->
    detector_r fr = Raise e ->
    service_error fr s e [] (after_detect s)
| predictor_error (pre : list face_in) (f : face_in) (post : list face_in)
                  (s2 : state) :
    read_r fr = Ok true -> cvtColor_r fr = Ok tt ->
    detector_r fr = Ok (pre ++ f :: post) ->
    for_faces pre (after_detect s) = (Ok tt, s2) ->
    predictor_r f = Raise e ->
    service_error fr s e pre (mkState (playing s2) (Predict :: log s2)).

(** The predictor fails on the second of three faces. *)
Definition unpredictable_face : face_in :=
  mkFace (Raise (ExternalError "predictor"%string)) (Ok tt) (Ok tt).
Definition unpredictable_frame : frame_in :=
  frame_of [drowsy_face; unpredictable_face; awake_face] (-1).

(** A face of ten landmarks between two full ones. *)
Definition short_face_frame : frame_in :=
  frame_of [drowsy_face; face_of landmarks_10; awake_face] (-1).

(** * Properties *)

(** ** Arithmetic of the rows *)

Lemma wrap64_small (z : Z) :
  - 2 ^ 63 <= z < 2 ^ 63 -> Np.wrap64 z = z.
Proof.
  intros Hz. unfold Np.wrap64.
  rewrite Z.mod_small by lia. lia.
Qed.

Lemma sqnorm_nonneg (v : point) : 0 <= Np.sqnorm v.
Proof. unfold Np.sqnorm. nia. Qed.

Lemma norm_nonneg (v : point) : (0 <= Np.norm v)%R.
Proof. apply sqrt_pos. Qed.

(** The integer test decides the comparison of the real norm with the
    integer bound. *)
Lemma norm_ltb_spec (v : point) (t : Z) :
  Np.norm_ltb v t = true <-> (Np.norm v < IZR t)%R.
Proof.
  unfold Np.norm_ltb, Np.norm.
  pose proof (sqnorm_nonneg v) as Hs.
  rewrite andb_true_iff, Z.ltb_lt, Z.ltb_lt.
  split.
  - intros [Ht Hlt].
    rewrite <- (sqrt_square (IZR t)) by (apply IZR_le; lia).
    apply sqrt_lt_1_alt. split.
    + apply IZR_le; exact Hs.
    + rewrite <- mult_IZR. apply IZR_lt; exact Hlt.
  - intros Hlt.
    assert (Ht : 0 < t).
    { apply lt_IZR. eapply Rle_lt_trans; [apply sqrt_pos | exact Hlt]. }
    split; [exact Ht |].
    destruct (Z_lt_le_dec (Np.sqnorm v) (t * t)) as [H | H]; [exact H |].
    exfalso. apply (Rlt_irrefl (IZR t)).
    eapply Rle_lt_trans; [| exact Hlt].
    rewrite <- (sqrt_square (IZR t)) at 1 by (apply IZR_le; lia).
    apply sqrt_le_1_alt. rewrite <- mult_IZR. apply IZR_le; exact H.
Qed.

Lemma sub_pixel (p q : point) :
  pixel p -> pixel q -> Np.sub p q = (fst p - fst q, snd p - snd q).
Proof.
  intros [Hp1 Hp2] [Hq1 Hq2]. unfold Np.sub.
  rewrite !wrap64_small by lia. reflexivity.
Qed.

Lemma norm_sub_euclid (p q : point) :
  pixel p -> pixel q -> Np.norm (Np.sub p q) = euclid p q.
Proof.
  intros Hp Hq. rewrite (sub_pixel p q Hp Hq).
  unfold Np.norm, Np.sqnorm, euclid; cbn [fst snd].
  f_equal. rewrite plus_IZR, !mult_IZR, !minus_IZR. ring.
Qed.

Lemma sub_translate (d p q : point) :
  Np.sub (fst p + fst d, snd p + snd d) (fst q + fst d, snd q + snd d)
  = Np.sub p q.
Proof.
  unfold Np.sub; cbn [fst snd]. f_equal; f_equal; lia.
Qed.

(** The binary64 computation agrees with the integer test on every row
    difference of at most 64 pixels per axis, hence all around the
    threshold; and it gives exactly 10 and 20 on the two scenarios. *)
Example norm_f64_agrees_near_threshold :
  forallb (fun v => Bool.eqb (PrimFloat.ltb (Np.norm_f64 v)
                                            (Np.f64_of_int threshold))
                             (Np.norm_ltb v threshold))
          (box 64) = true.
Proof. vm_compute. reflexivity. Qed.

Example norm_f64_scenarios :
  Np.norm_f64 (Np.sub (0, 0) (0, 10)) = Np.f64_of_int 10
  /\ Np.norm_f64 (Np.sub (0, 0) (0, 20)) = Np.f64_of_int 20.
Proof. split; vm_compute; reflexivity. Qed.

(** Outside the pixel range the int64 subtraction wraps: the two points are
    [2 ^ 63 + 1] apart, the row difference is [- (2 ^ 63 - 1)]. *)
Example sub_wraps :
  Np.sub (2 ^ 63 - 1, 0) (-2, 0) = (- (2 ^ 63 - 1), 0).
Proof. reflexivity. Qed.

(** ** The closure score and the verdict of one eye *)

Lemma closure_score_cons2 (p0 p1 : point) (rest : list point) :
  closure_score (p0 :: p1 :: rest) = Ok (Np.norm (Np.sub p0 p1)).
Proof. reflexivity. Qed.

Lemma eyes_closed_cons2 (p0 p1 : point) (rest : list point) :
  eyes_closed (p0 :: p1 :: rest) = Ok (Np.norm_ltb (Np.sub p0 p1) threshold).
Proof. reflexivity. Qed.

Lemma pixel_small (p : point) :
  Z.abs (fst p) <= 2 ^ 32 -> Z.abs (snd p) <= 2 ^ 32 -> pixel p.
Proof. intros H1 H2. split; lia. Qed.

(** *** The score in binary64 *)


(** The conversion of the one int64 whose magnitude is not a 63-bit
    number is exact. *)
Example f64_of_int_min :
  FloatOps.Prim2SF (Np.f64_of_int (- 2 ^ 63))
  = SpecFloat.S754_finite true 4503599627370496 11.
Proof. vm_compute. reflexivity. Qed.












(** C6: whenever a contour has a closure score, [eyes_closed] answers, and
    its answer is "closed" exactly when the score is strictly below the
    threshold, which is 15; a score of 20 gives "not closed". *)
Theorem eyes_closed_iff_score_below_threshold :
  forall (eye_points : list point) (score : R),
    closure_score eye_points = Ok score ->
    threshold = 15
    /\ (exists closed : bool,
          eyes_closed eye_points = Ok closed
          /\ (closed = true <-> (score < IZR threshold)%R))
    /\ closure_score scenario_B = Ok 20%R
    /\ eyes_closed scenario_B = Ok false.
Proof.
  intros eye_points score Hs. split; [reflexivity |]. split.
  - destruct eye_points as [| p0 [| p1 rest]]; try discriminate.
    rewrite closure_score_cons2 in Hs. injection Hs as <-.
    exists (Np.norm_ltb (Np.sub p0 p1) threshold). split.
    + apply eyes_closed_cons2.
    + apply norm_ltb_spec.
  - split; [| reflexivity].
    unfold scenario_B. rewrite closure_score_cons2.
    rewrite norm_sub_euclid by (apply pixel_small; cbn; lia).
    unfold euclid; cbn [fst snd]. f_equal.
    replace ((0 - 0) ^ 2 + (0 - 20) ^ 2)%R with (20 * 20)%R by ring.
    apply sqrt_square. lra.
Qed.

Lemma eyes_closed_iff_score_below_threshold_witness :
  closure_score scenario_A = Ok (Np.norm (Np.sub (0, 0) (0, 10)))
  /\ threshold = 15
  /\ (exists closed : bool,
        eyes_closed scenario_A = Ok closed
        /\ (closed = true
            <-> (Np.norm (Np.sub (0, 0)%Z (0, 10)%Z) < IZR threshold)%R))
  /\ closure_score scenario_B = Ok 20%R
  /\ eyes_closed scenario_B = Ok false.
Proof.
  split; [reflexivity |].
  apply (eyes_closed_iff_score_below_threshold
           scenario_A (Np.norm (Np.sub (0, 0) (0, 10)))).
  reflexivity.
Defined.

(** C10: moving every point of a contour by one offset changes neither the
    verdict of [eyes_closed] nor the closure score. *)
Theorem eyes_closed_translation_invariant :
  forall (d : point) (eye_points : list point),
    eyes_closed (translate d eye_points) = eyes_closed eye_points
    /\ closure_score (translate d eye_points) = closure_score eye_points.
Proof.
  intros d [| p0 [| p1 rest]]; split; try reflexivity; cbn [translate map].
  - rewrite !eyes_closed_cons2, sub_translate. reflexivity.
  - rewrite !closure_score_cons2, sub_translate. reflexivity.
Qed.

(** ** The geometry extractor *)

Lemma skipn_nth_error_cons {A : Type} (l : list A) :
  forall (a : nat) (x : A),
    nth_error l a = Some x -> skipn a l = x :: skipn (S a) l.
Proof.
  induction l as [| y l IH]; intros [| a] x H; cbn in *; try discriminate.
  - injection H as ->. reflexivity.
  - apply IH. exact H.
Qed.

(** Consecutive indices inside the landmark set give the slice. *)
Lemma parts_seq (lm : landmarks) :
  forall n a : nat,
    (a + n <= length lm)%nat ->
    parts lm (seq a n) = Ok (firstn n (skipn a lm)).
Proof.
  induction n as [| n IH]; intros a Hlen; cbn [seq parts].
  - reflexivity.
  - unfold part, Np.index.
    destruct (nth_error lm a) as [x |] eqn:Hx.
    + cbn [res_bind]. rewrite IH by lia. cbn [res_bind].
      rewrite (skipn_nth_error_cons lm a x Hx). reflexivity.
    + apply nth_error_None in Hx. lia.
Qed.

(** An index at or beyond [num_parts] makes the construction raise. *)
Lemma parts_out_of_range (lm : landmarks) (idxs : list nat) :
  Exists (fun i => (length lm <= i)%nat) idxs ->
  parts lm idxs = Raise IndexError.
Proof.
  induction 1 as [i rest Hi | i rest _ IH]; cbn [parts]; unfold part, Np.index.
  - apply nth_error_None in Hi. rewrite Hi. reflexivity.
  - destruct (nth_error lm i); cbn [res_bind]; [rewrite IH |]; reflexivity.
Qed.

Lemma extract_eyes_slices (lm : landmarks) :
  (48 <= length lm)%nat ->
  extract_eyes lm = Ok (firstn 6 (skipn 36 lm), firstn 6 (skipn 42 lm)).
Proof.
  intros Hlen. unfold extract_eyes.
  change left_eye_indices with (seq 36 6).
  change right_eye_indices with (seq 42 6).
  rewrite !parts_seq by lia. reflexivity.
Qed.

Lemma extract_eyes_short (lm : landmarks) :
  (length lm < 48)%nat -> extract_eyes lm = Raise IndexError.
Proof.
  intros Hlen. unfold extract_eyes.
  destruct (Nat.le_gt_cases 42 (length lm)) as [H42 | H42].
  - change left_eye_indices with (seq 36 6).
    rewrite parts_seq by lia. cbn [res_bind].
    rewrite parts_out_of_range; [reflexivity |].
    unfold right_eye_indices. do 5 apply Exists_cons_tl.
    apply Exists_cons_hd. lia.
  - rewrite parts_out_of_range; [reflexivity |].
    unfold left_eye_indices. do 5 apply Exists_cons_tl.
    apply Exists_cons_hd. lia.
Qed.

Lemma slice_nth_error {A : Type} (l : list A) (a n k : nat) :
  (k < n)%nat ->
  nth_error (firstn n (skipn a l)) k = nth_error l (a + k).
Proof.
  intros Hk. rewrite nth_error_firstn.
  destruct (Nat.ltb_spec k n); [| lia].
  apply nth_error_skipn.
Qed.

(** C8: from 68 landmarks the extractor returns the six points of indices
    36..41 as the left eye and the six of indices 42..47 as the right eye,
    each in ascending index order. *)
Theorem extract_eyes_68 :
  forall lm : landmarks,
    length lm = 68%nat ->
    exists left_eye right_eye : list point,
      extract_eyes lm = Ok (left_eye, right_eye)
      /\ length left_eye = 6%nat /\ length right_eye = 6%nat
      /\ (forall k, (k < 6)%nat ->
            nth_error left_eye k = nth_error lm (36 + k))
      /\ (forall k, (k < 6)%nat ->
            nth_error right_eye k = nth_error lm (42 + k)).
Proof.
  intros lm Hlen.
  exists (firstn 6 (skipn 36 lm)), (firstn 6 (skipn 42 lm)).
  split; [apply extract_eyes_slices; lia |].
  split; [rewrite firstn_length_le; [reflexivity | rewrite length_skipn; lia] |].
  split; [rewrite firstn_length_le; [reflexivity | rewrite length_skipn; lia] |].
  split; intros k Hk; apply slice_nth_error; exact Hk.
Qed.

Lemma extract_eyes_68_witness :
  exists left_eye right_eye : list point,
    extract_eyes (sample_landmarks scenario_A scenario_B)
    = Ok (left_eye, right_eye)
    /\ length left_eye = 6%nat /\ length right_eye = 6%nat
    /\ (forall k, (k < 6)%nat ->
          nth_error left_eye k
          = nth_error (sample_landmarks scenario_A scenario_B) (36 + k))
    /\ (forall k, (k < 6)%nat ->
          nth_error right_eye k
          = nth_error (sample_landmarks scenario_A scenario_B) (42 + k)).
Proof.
  apply (extract_eyes_68 (sample_landmarks scenario_A scenario_B)).
  reflexivity.
Defined.

Example extract_sample :
  extract_eyes (sample_landmarks scenario_A scenario_B)
  = Ok (scenario_A, scenario_B).
Proof. reflexivity. Qed.

(** ** Relations every step of a computation keeps *)

Section Preserved.

Variable R : state -> state -> Prop.
Hypothesis R_refl : forall s, R s s.
Hypothesis R_trans : forall a b c, R a b -> R b c -> R a c.

Lemma preserves_ret {A : Type} (a : A) : preserves R (ret a).
Proof. intros s. apply R_refl. Qed.

Lemma preserves_lift {A : Type} (r : res A) : preserves R (lift r).
Proof. intros s. apply R_refl. Qed.

Lemma preserves_bind {A B : Type} (m : M A) (k : A -> M B) :
  preserves R m -> (forall a, preserves R (k a)) -> preserves R (bind m k).
Proof.
  intros Hm Hk s. unfold bind.
  specialize (Hm s). destruct (m s) as [[a | e] s1]; cbn [snd] in *.
  - eapply R_trans; [exact Hm | apply Hk].
  - exact Hm.
Qed.

(** The calls of the loop that only leave a line in the log. *)
Hypothesis R_log :
  forall (c : call) (s : state),
    In c [CapRead; CvtColor; Detect; Predict; Print; Imshow; WaitKey] ->
    R s (mkState (playing s) (c :: log s)).

Lemma preserves_extcall {A : Type} (c : call) (r : res A) :
  In c [CapRead; CvtColor; Detect; Predict; Print; Imshow; WaitKey] ->
  preserves R (extcall c r).
Proof. intros Hc s. apply R_log. exact Hc. Qed.

Section Faces.

Hypothesis R_play : forall r, preserves R (music_play r).

Lemma process_face_preserves (f : face_in) : preserves R (process_face f).
Proof.
  unfold process_face.
  apply preserves_bind; [apply preserves_extcall; cbn; tauto |]. intros lm.
  apply preserves_bind; [apply preserves_lift |]. intros [le re].
  apply preserves_bind; [apply preserves_lift |]. intros [|].
  - apply preserves_bind; [apply preserves_extcall; cbn; tauto |].
    intros _. apply R_play.
  - apply preserves_ret.
Qed.

Lemma for_faces_preserves (faces : list face_in) :
  preserves R (for_faces faces).
Proof.
  induction faces as [| f rest IH]; cbn [for_faces].
  - apply preserves_ret.
  - apply preserves_bind; [apply process_face_preserves |].
    intros _. exact IH.
Qed.

End Faces.

(** One iteration keeps [R] as soon as its faces do. *)
Lemma loop_body_preserves_faces (fr : frame_in) :
  (forall faces, detector_r fr = Ok faces -> preserves R (for_faces faces)) ->
  preserves R (loop_body fr).
Proof.
  intros Hfaces s. unfold loop_body, bind at 1, extcall at 1.
  destruct (read_r fr) as [[|] | e]; cbn [negb snd ret];
    try (apply R_log; cbn; tauto).
  eapply R_trans; [apply (R_log CapRead); cbn; tauto |].
  apply preserves_bind; [apply preserves_extcall; cbn; tauto |].
  intros _ s1. unfold bind at 1, extcall at 1.
  destruct (detector_r fr) as [faces | e] eqn:Hd; cbn [snd];
    [| apply R_log; cbn; tauto].
  eapply R_trans; [apply (R_log Detect); cbn; tauto |].
  apply (preserves_bind (for_faces faces)); [apply Hfaces; reflexivity |].
  intros _.
  apply preserves_bind; [apply preserves_extcall; cbn; tauto |]. intros _.
  apply preserves_bind; [apply preserves_extcall; cbn; tauto |]. intros k.
  destruct (is_quit_key k); apply preserves_ret.
Qed.

Lemma while_true_preserves_body (frs : list frame_in) :
  (forall fr, In fr frs -> preserves R (loop_body fr)) ->
  preserves R (while_true frs).
Proof.
  induction frs as [| fr rest IH]; intros Hbody; cbn [while_true].
  - apply preserves_ret.
  - apply preserves_bind; [apply Hbody; left; reflexivity |].
    intros [|]; [| apply preserves_ret].
    apply IH. intros fr' Hin. apply Hbody. right. exact Hin.
Qed.

Section Loop.

Hypothesis R_play : forall r, preserves R (music_play r).

Lemma loop_body_preserves (fr : frame_in) : preserves R (loop_body fr).
Proof.
  apply loop_body_preserves_faces. intros faces _.
  apply for_faces_preserves. exact R_play.
Qed.

Lemma while_true_preserves (frs : list frame_in) :
  preserves R (while_true frs).
Proof.
  apply while_true_preserves_body. intros fr _.
  apply loop_body_preserves.
Qed.

End Loop.

End Preserved.

(** ** What the loop never does, and what it never undoes *)

Ltac by_call :=
  unfold same_count, latch, quiet, count_call, music_play;
  intros;
  repeat match goal with
         | H : In _ (_ :: _) |- _ => destruct H as [<- | H]
         | H : In _ [] |- _ => destruct H
         | r : res unit |- _ => destruct r
         end;
  cbn; auto; try congruence.

Lemma while_true_same_count (c : call) (frs : list frame_in) (s : state) :
  In c [MusicStop; CapRelease; DestroyAllWindows] ->
  count_call c (snd (while_true frs s)) = count_call c s.
Proof.
  intros Hc.
  apply (while_true_preserves (same_count c)); unfold same_count.
  - reflexivity.
  - intros a b d Hab Hbd. congruence.
  - intros c' s' Hc'. by_call.
  - intros r s'. by_call.
Qed.

Lemma loop_body_latch (fr : frame_in) (s : state) :
  playing s = true -> playing (snd (loop_body fr s)) = true.
Proof.
  apply (loop_body_preserves latch); unfold latch.
  - auto.
  - auto.
  - intros c' s' _ H. exact H.
  - intros r s' H. by_call.
Qed.

Lemma quiet_refl (s : state) : quiet s s.
Proof. split; reflexivity. Qed.

Lemma quiet_trans (a b c : state) : quiet a b -> quiet b c -> quiet a c.
Proof. unfold quiet. intros [H1 H2] [H3 H4]. split; congruence. Qed.

Lemma quiet_log (c : call) (s : state) :
  In c [CapRead; CvtColor; Detect; Predict; Print; Imshow; WaitKey] ->
  quiet s (mkState (playing s) (c :: log s)).
Proof. by_call. Qed.

(** A face without the signal only costs the call of the predictor. *)
Lemma process_face_no_signal (f : face_in) (s : state) :
  face_signal f = false ->
  snd (process_face f s) = mkState (playing s) (Predict :: log s).
Proof.
  unfold face_signal, process_face, bind, extcall, lift.
  destruct (predictor_r f) as [lm | e]; [| reflexivity].
  destruct (extract_eyes lm) as [[le re] | e]; [| reflexivity].
  destruct (both_closed le re) as [[|] | e]; [discriminate | |]; reflexivity.
Qed.

Lemma for_faces_no_signal (faces : list face_in) :
  existsb face_signal faces = false -> preserves quiet (for_faces faces).
Proof.
  induction faces as [| f rest IH]; cbn [existsb for_faces]; intros H.
  - apply preserves_ret. exact quiet_refl.
  - apply orb_false_elim in H as [Hf Hrest].
    apply preserves_bind; [exact quiet_trans | | intros _; apply IH, Hrest].
    intros s. rewrite process_face_no_signal by exact Hf.
    apply quiet_log. cbn; tauto.
Qed.

Lemma loop_body_no_signal (fr : frame_in) :
  frame_signal fr = false -> preserves quiet (loop_body fr).
Proof.
  intros H.
  apply loop_body_preserves_faces;
    [exact quiet_refl | exact quiet_trans | exact quiet_log |].
  intros faces Hd. apply for_faces_no_signal.
  unfold frame_signal in H. rewrite Hd in H. exact H.
Qed.

(** ** Frames that are processed to the end *)

Lemma process_face_ok (f : face_in) (s s' : state) :
  process_face f s = (Ok tt, s') ->
  playing s' = playing s || face_signal f
  /\ count_call MusicPlay s' = (count_call MusicPlay s + b2n (face_signal f))%nat.
Proof.
  unfold face_signal, process_face, bind, extcall, lift, music_play, ret,
    count_call.
  destruct (predictor_r f) as [lm | e]; [| discriminate].
  destruct (extract_eyes lm) as [[le re] | e]; [| discriminate].
  destruct (both_closed le re) as [[|] | e]; [| | discriminate].
  - destruct (print_r f) as [[] | e]; [| discriminate].
    destruct (play_r f) as [[] | e]; [| discriminate].
    intros H. injection H as <-. cbn. rewrite orb_true_r. split; [reflexivity | lia].
  - intros H. injection H as <-. cbn. rewrite orb_false_r. split; [reflexivity | lia].
Qed.

Lemma for_faces_ok (faces : list face_in) :
  forall s s' : state,
    for_faces faces s = (Ok tt, s') ->
    playing s' = playing s || existsb face_signal faces
    /\ count_call MusicPlay s'
       = (count_call MusicPlay s + length (filter face_signal faces))%nat.
Proof.
  induction faces as [| f rest IH]; intros s s'; cbn [for_faces existsb filter].
  - unfold ret. intros H. injection H as <-.
    rewrite orb_false_r. split; [reflexivity | cbn; lia].
  - unfold bind at 1.
    destruct (process_face f s) as [[[] | e] s1] eqn:Hf; [| discriminate].
    intros Hrest.
    apply process_face_ok in Hf as [Hp Hc].
    apply IH in Hrest as [Hp' Hc'].
    rewrite Hp', Hp, Hc', Hc. split; [symmetry; apply orb_assoc |].
    destruct (face_signal f); cbn [b2n length]; lia.
Qed.

(** A processed frame, taken apart. *)
Lemma processed_inv (fr : frame_in) (s s' : state) (c : ctl) :
  processed fr s c s' ->
  exists (faces : list face_in) (s1 : state),
    detector_r fr = Ok faces
    /\ for_faces faces (mkState (playing s) (Detect :: CvtColor :: CapRead :: log s))
       = (Ok tt, s1)
    /\ s' = mkState (playing s1) (WaitKey :: Imshow :: log s1).
Proof.
  intros [Hread Hbody]. revert Hbody.
  unfold loop_body, bind, extcall, ret. rewrite Hread. cbn [negb].
  destruct (cvtColor_r fr) as [[] | e]; [| discriminate].
  destruct (detector_r fr) as [faces | e]; [| discriminate].
  cbn [playing log].
  destruct (for_faces faces _) as [[[] | e] s1] eqn:Hfaces; [| discriminate].
  destruct (imshow_r fr) as [[] | e]; [| discriminate].
  destruct (waitKey_r fr) as [k | e]; [| discriminate].
  intros Hbody. exists faces, s1. split; [reflexivity |]. split; [exact Hfaces |].
  destruct (is_quit_key k); injection Hbody as _ <-; reflexivity.
Qed.

Lemma processed_plays (fr : frame_in) (s s' : state) (c : ctl) :
  processed fr s c s' ->
  playing s' = playing s || frame_signal fr
  /\ count_call MusicPlay s' = (count_call MusicPlay s + drowsy_faces fr)%nat.
Proof.
  intros H. destruct (processed_inv fr s s' c H) as (faces & s1 & Hd & Hf & ->).
  apply for_faces_ok in Hf as [Hp Hc].
  unfold frame_signal, drowsy_faces. rewrite Hd.
  unfold count_call in *. cbn in *. split; assumption.
Qed.

Lemma filter_length_pos {A : Type} (p : A -> bool) (l : list A) :
  existsb p l = true -> (1 <= length (filter p l))%nat.
Proof.
  induction l as [| x l IH]; cbn; [discriminate |].
  destruct (p x); cbn; [lia | exact IH].
Qed.

Lemma frame_signal_drowsy_faces (fr : frame_in) :
  frame_signal fr = true -> (1 <= drowsy_faces fr)%nat.
Proof.
  unfold frame_signal, drowsy_faces.
  destruct (detector_r fr); [apply filter_length_pos | discriminate].
Qed.

Lemma loop_body_same_count (c : call) (fr : frame_in) (s : state) :
  In c [MusicStop; CapRelease; DestroyAllWindows] ->
  count_call c (snd (loop_body fr s)) = count_call c s.
Proof.
  intros Hc.
  apply (loop_body_preserves (same_count c)); unfold same_count.
  - reflexivity.
  - intros a b d Hab Hbd. congruence.
  - intros c' s' Hc'. by_call.
  - intros r s'. by_call.
Qed.

Lemma alarm_state_playing (s s' : state) :
  playing s' = playing s -> alarm_state s' = alarm_state s.
Proof. unfold alarm_state. intros ->. reflexivity. Qed.

Lemma sounding_playing (s : state) :
  alarm_state s = Sounding <-> playing s = true.
Proof.
  unfold alarm_state. destruct (playing s); split; congruence.
Qed.

(** ** The two verdicts combined *)

Lemma py_and_andb (l r : bool) : py_and (Ok l) (Ok r) = Ok (l && r).
Proof. destruct l, r; reflexivity. Qed.

(** C7: the combined signal of two per-eye verdicts is their conjunction,
    true exactly when both are "closed"; a face with one eye closed and the
    other not gives no start command and leaves the mixer as it was. *)
Theorem both_closed_iff_both :
  forall (left_eye right_eye : list point) (l r : bool),
    eyes_closed left_eye = Ok l ->
    eyes_closed right_eye = Ok r ->
    both_closed left_eye right_eye = Ok (l && r)
    /\ (l && r = true <-> l = true /\ r = true)
    /\ (l && r = false ->
        forall (f : face_in) (lm : landmarks) (s : state),
          predictor_r f = Ok lm ->
          extract_eyes lm = Ok (left_eye, right_eye) ->
          count_call MusicPlay (snd (process_face f s)) = count_call MusicPlay s
          /\ alarm_state (snd (process_face f s)) = alarm_state s).
Proof.
  intros le re l r Hl Hr.
  assert (Hboth : both_closed le re = Ok (l && r)).
  { unfold both_closed. rewrite Hl, Hr. apply py_and_andb. }
  split; [exact Hboth |]. split; [apply andb_true_iff |].
  intros Hfalse f lm s Hp He.
  rewrite process_face_no_signal.
  - split; reflexivity.
  - unfold face_signal. rewrite Hp, He, Hboth. exact Hfalse.
Qed.

Lemma both_closed_iff_both_witness :
  both_closed scenario_A scenario_B = Ok (true && false)
  /\ (true && false = true <-> true = true /\ false = true)
  /\ (true && false = false ->
      forall (f : face_in) (lm : landmarks) (s : state),
        predictor_r f = Ok lm ->
        extract_eyes lm = Ok (scenario_A, scenario_B) ->
        count_call MusicPlay (snd (process_face f s)) = count_call MusicPlay s
        /\ alarm_state (snd (process_face f s)) = alarm_state s).
Proof.
  apply (both_closed_iff_both scenario_A scenario_B true false); reflexivity.
Defined.

(** ** Frames without the signal *)

(** C4: a frame whose DrowsinessSignal is false, a frame without faces
    included, leaves the AlarmState as it was and issues neither a start nor
    a stop command; and no frame at all takes the state from Sounding back
    to Silent. *)
Theorem no_signal_no_alarm_command :
  forall (fr : frame_in) (s : state),
    frame_signal fr = false ->
    alarm_state (snd (loop_body fr s)) = alarm_state s
    /\ count_call MusicPlay (snd (loop_body fr s)) = count_call MusicPlay s
    /\ count_call MusicStop (snd (loop_body fr s)) = count_call MusicStop s
    /\ (forall fr0 : frame_in,
          detector_r fr0 = Ok [] -> frame_signal fr0 = false)
    /\ (forall (fr0 : frame_in) (s0 : state),
          alarm_state s0 = Sounding ->
          alarm_state (snd (loop_body fr0 s0)) = Sounding).
Proof.
  intros fr s Hsig.
  destruct (loop_body_no_signal fr Hsig s) as [Hp Hc].
  split; [apply alarm_state_playing; exact Hp |].
  split; [exact Hc |].
  split; [apply loop_body_same_count; cbn; tauto |].
  split.
  - intros fr0 Hd. unfold frame_signal. rewrite Hd. reflexivity.
  - intros fr0 s0 H. apply sounding_playing. apply loop_body_latch.
    apply sounding_playing. exact H.
Qed.

Lemma no_signal_no_alarm_command_witness :
  alarm_state (snd (loop_body winking_frame sounding)) = alarm_state sounding
  /\ count_call MusicPlay (snd (loop_body winking_frame sounding))
     = count_call MusicPlay sounding
  /\ count_call MusicStop (snd (loop_body winking_frame sounding))
     = count_call MusicStop sounding
  /\ (forall fr0 : frame_in,
        detector_r fr0 = Ok [] -> frame_signal fr0 = false)
  /\ (forall (fr0 : frame_in) (s0 : state),
        alarm_state s0 = Sounding ->
        alarm_state (snd (loop_body fr0 s0)) = Sounding).
Proof.
  apply (no_signal_no_alarm_command winking_frame sounding).
  reflexivity.
Defined.

(** ** Two drowsy frames in a row *)

(** C1, as stated, fails: two consecutive processed frames with the signal
    issue two start commands, the second one while the alarm is sounding. *)
Lemma start_issued_twice_on_two_drowsy_frames :
  processed drowsy_frame init Continue (snd (loop_body drowsy_frame init))
  /\ processed drowsy_frame (snd (loop_body drowsy_frame init)) Continue
       (snd (while_true [drowsy_frame; drowsy_frame] init))
  /\ frame_signal drowsy_frame = true
  /\ alarm_state (snd (loop_body drowsy_frame init)) = Sounding
  /\ count_call MusicPlay (snd (while_true [drowsy_frame; drowsy_frame] init))
     = 2%nat.
Proof. repeat split. Qed.

(** C1, amended: every processed frame issues one start command for each
    detected face with both eyes closed, whatever the AlarmState; two
    consecutive processed frames with the signal therefore issue at least
    two start commands, the later ones while the state is Sounding. *)
Theorem start_issued_for_every_drowsy_face :
  forall (fr1 fr2 : frame_in) (s s1 s2 : state) (c : ctl),
    processed fr1 s Continue s1 ->
    processed fr2 s1 c s2 ->
    frame_signal fr1 = true ->
    frame_signal fr2 = true ->
    count_call MusicPlay s2
    = (count_call MusicPlay s + drowsy_faces fr1 + drowsy_faces fr2)%nat
    /\ (count_call MusicPlay s + 2 <= count_call MusicPlay s2)%nat
    /\ alarm_state s1 = Sounding
    /\ (count_call MusicPlay s1 < count_call MusicPlay s2)%nat
    /\ alarm_state s2 = Sounding.
Proof.
  intros fr1 fr2 s s1 s2 c H1 H2 Hsig1 Hsig2.
  apply processed_plays in H1 as [Hp1 Hc1].
  apply processed_plays in H2 as [Hp2 Hc2].
  pose proof (frame_signal_drowsy_faces fr1 Hsig1) as Hd1.
  pose proof (frame_signal_drowsy_faces fr2 Hsig2) as Hd2.
  rewrite Hsig1, orb_true_r in Hp1. rewrite Hsig2, orb_true_r in Hp2.
  repeat split; try (apply sounding_playing; assumption); lia.
Qed.

Lemma start_issued_for_every_drowsy_face_witness :
  count_call MusicPlay (snd (while_true [drowsy_frame; drowsy_frame] init))
  = (count_call MusicPlay init + drowsy_faces drowsy_frame
     + drowsy_faces drowsy_frame)%nat
  /\ (count_call MusicPlay init + 2
      <= count_call MusicPlay
           (snd (while_true [drowsy_frame; drowsy_frame] init)))%nat
  /\ alarm_state (snd (loop_body drowsy_frame init)) = Sounding
  /\ (count_call MusicPlay (snd (loop_body drowsy_frame init))
      < count_call MusicPlay
          (snd (while_true [drowsy_frame; drowsy_frame] init)))%nat
  /\ alarm_state (snd (while_true [drowsy_frame; drowsy_frame] init))
     = Sounding.
Proof.
  apply (start_issued_for_every_drowsy_face
           drowsy_frame drowsy_frame init
           (snd (loop_body drowsy_frame init))
           (snd (while_true [drowsy_frame; drowsy_frame] init)) Continue);
    repeat split.
Defined.

(** ** Leaving the loop *)

Lemma camera_failure_breaks (fr : frame_in) (s : state) :
  read_r fr = Ok false ->
  loop_body fr s = (Ok Break, mkState (playing s) (CapRead :: log s)).
Proof. intros H. unfold loop_body, bind, extcall. rewrite H. reflexivity. Qed.

Lemma quit_key_breaks (fr : frame_in) (s s' : state) (c : ctl) (k : Z) :
  loop_body fr s = (Ok c, s') ->
  waitKey_r fr = Ok k -> Z.land k 255 = 113 -> c = Break.
Proof.
  unfold loop_body, bind, extcall, ret. intros H Hk Hq.
  destruct (read_r fr) as [[|] | e]; cbn [negb] in H;
    [| injection H as <- _; reflexivity | discriminate].
  destruct (cvtColor_r fr) as [[] | e]; [| discriminate].
  destruct (detector_r fr) as [faces | e]; [| discriminate].
  destruct (for_faces faces _) as [[[] | e] s1]; [| discriminate].
  destruct (imshow_r fr) as [[] | e]; [| discriminate].
  rewrite Hk in H. unfold is_quit_key in H. rewrite Hq in H. cbn in H.
  injection H as <- _. reflexivity.
Qed.

(** An exception of an iteration leaves the loop with it: nothing inside
    [while True] handles it, and the frames still to come play no part. *)
Lemma while_true_raise (fr : frame_in) (rest : list frame_in) (s s1 : state)
      (e : exn) :
  loop_body fr s = (Raise e, s1) ->
  while_true (fr :: rest) s = (Raise e, s1).
Proof. intros H. cbn [while_true]. unfold bind. rewrite H. reflexivity. Qed.

Lemma while_true_break (fr : frame_in) (rest : list frame_in) (s s1 : state) :
  loop_body fr s = (Ok Break, s1) ->
  while_true (fr :: rest) s = (Ok Exited, s1).
Proof. intros H. cbn [while_true]. unfold bind. rewrite H. reflexivity. Qed.

Lemma cleanup_state {A : Type} (w : world) (k : M A) (s1 : state) :
  (forall s, snd (k s) = s) ->
  snd ((cleanup w ;; k)%eff s1) = after_cleanup w s1.
Proof.
  intros Hk. unfold cleanup, after_cleanup, bind, extcall.
  destruct (release_r w) as [[] | e]; [| reflexivity].
  destruct (destroyAllWindows_r w) as [[] | e]; [| reflexivity].
  cbn [playing log]. apply Hk.
Qed.

Lemma main_exit_state (w : world) (s : state) :
  fst (main w s) <> Ok Running ->
  snd (main w s) = after_cleanup w (snd (while_true (frames w) s)).
Proof.
  unfold main.
  destruct (while_true (frames w) s) as [[[|] | e] s1]; cbn [snd].
  - intros _. apply cleanup_state. reflexivity.
  - intros H. exfalso. apply H. reflexivity.
  - intros _. destruct e; apply cleanup_state; reflexivity.
Qed.

(** The script is still in the loop exactly when the loop is. *)
Lemma main_running_iff (w : world) (s : state) :
  fst (main w s) = Ok Running <-> fst (while_true (frames w) s) = Ok Iterating.
Proof.
  unfold main, cleanup, bind, extcall, lift, ret.
  destruct (while_true (frames w) s) as [[[|] | e] s1]; cbn [fst].
  - destruct (release_r w) as [[] | e1],
      (destroyAllWindows_r w) as [[] | e2]; split; discriminate.
  - split; reflexivity.
  - destruct e, (release_r w) as [[] | e1],
      (destroyAllWindows_r w) as [[] | e2]; split; discriminate.
Qed.

(** A KeyboardInterrupt anywhere in the loop is swallowed after the
    cleanup. *)
Lemma interrupt_returns (w : world) (s s1 : state) :
  while_true (frames w) s = (Raise KeyboardInterrupt, s1) ->
  release_r w = Ok tt -> destroyAllWindows_r w = Ok tt ->
  main w s
  = (Ok Returned,
     mkState (playing s1) (DestroyAllWindows :: CapRelease :: log s1)).
Proof.
  intros Hloop Hr Hd. unfold main, cleanup, bind, extcall, ret.
  rewrite Hloop, Hr, Hd. reflexivity.
Qed.

(** C2, as stated, fails: on the quit key the script returns after one
    camera release, the mixer was never told to stop and the alarm is still
    playing. *)
Lemma quit_key_leaves_alarm_playing :
  main (world_of [quit_frame]) init
  = (Ok Returned,
     mkState true [DestroyAllWindows; CapRelease; WaitKey; Imshow; MusicPlay;
                   Print; Predict; Detect; CvtColor; CapRead])
  /\ count_call MusicStop (snd (main (world_of [quit_frame]) init)) = 0%nat
  /\ count_call CapRelease (snd (main (world_of [quit_frame]) init)) = 1%nat.
Proof. repeat split. Qed.

(** C2, amended: on every exit path of the loop (quit key, camera read
    failure, KeyboardInterrupt or any other exception) the camera release is
    invoked exactly once, after the last call of the loop, and
    destroyAllWindows once when the release returns; no stop command is
    ever issued to the mixer, which is left as the loop left it. *)
Theorem cleanup_releases_camera_once :
  forall (w : world) (s : state),
    fst (main w s) <> Ok Running ->
    count_call CapRelease (snd (main w s)) = (count_call CapRelease s + 1)%nat
    /\ count_call MusicStop (snd (main w s)) = count_call MusicStop s
    /\ (release_r w = Ok tt ->
        count_call DestroyAllWindows (snd (main w s))
        = (count_call DestroyAllWindows s + 1)%nat)
    /\ playing (snd (main w s)) = playing (snd (while_true (frames w) s))
    /\ exists last : list call,
         log (snd (main w s))
         = last ++ CapRelease :: log (snd (while_true (frames w) s))
         /\ (last = [] \/ last = [DestroyAllWindows]).
Proof.
  intros w s Hexit. rewrite (main_exit_state w s Hexit).
  pose proof (while_true_same_count CapRelease (frames w) s) as Hrel.
  pose proof (while_true_same_count MusicStop (frames w) s) as Hstop.
  pose proof (while_true_same_count DestroyAllWindows (frames w) s) as Hdes.
  unfold count_call in *. unfold after_cleanup.
  destruct (release_r w) as [[] | e]; cbn.
  - rewrite Hrel, Hstop, Hdes by (cbn; tauto).
    repeat split; try lia.
    exists [DestroyAllWindows]. split; [reflexivity | right; reflexivity].
  - rewrite Hrel, Hstop by (cbn; tauto).
    repeat split; try lia; try discriminate.
    exists []. split; [reflexivity | left; reflexivity].
Qed.

Lemma cleanup_releases_camera_once_witness :
  count_call CapRelease (snd (main (world_of [quit_frame]) init))
  = (count_call CapRelease init + 1)%nat
  /\ count_call MusicStop (snd (main (world_of [quit_frame]) init))
     = count_call MusicStop init
  /\ (release_r (world_of [quit_frame]) = Ok tt ->
      count_call DestroyAllWindows (snd (main (world_of [quit_frame]) init))
      = (count_call DestroyAllWindows init + 1)%nat)
  /\ playing (snd (main (world_of [quit_frame]) init))
     = playing (snd (while_true (frames (world_of [quit_frame])) init))
  /\ exists last : list call,
       log (snd (main (world_of [quit_frame]) init))
       = last ++ CapRelease
              :: log (snd (while_true (frames (world_of [quit_frame])) init))
       /\ (last = [] \/ last = [DestroyAllWindows]).
Proof.
  apply (cleanup_releases_camera_once (world_of [quit_frame]) init).
  vm_compute. discriminate.
Defined.

(** ** A service that raises *)

Lemma for_faces_app (pre post : list face_in) :
  forall s : state,
    for_faces (pre ++ post) s
    = match for_faces pre s with
      | (Ok _, s1) => for_faces post s1
      | (Raise e, s1) => (Raise e, s1)
      end.
Proof.
  induction pre as [| f pre IH]; intros s; cbn [app for_faces].
  - reflexivity.
  - unfold bind.
    destruct (process_face f s) as [[[] | e] s1]; [apply IH | reflexivity].
Qed.

Lemma process_face_predictor_raise (f : face_in) (s : state) (e : exn) :
  predictor_r f = Raise e ->
  process_face f s = (Raise e, mkState (playing s) (Predict :: log s)).
Proof.
  intros H. unfold process_face, bind, extcall. rewrite H. reflexivity.
Qed.

Lemma process_face_short (f : face_in) (lm : landmarks) (s : state) :
  predictor_r f = Ok lm -> (length lm < 48)%nat ->
  process_face f s = (Raise IndexError, mkState (playing s) (Predict :: log s)).
Proof.
  intros H Hlen. unfold process_face, bind, extcall, lift.
  rewrite H, (extract_eyes_short lm Hlen). reflexivity.
Qed.

(** A face that raises after faces that did not: the faces after it are
    not looked at. *)
Lemma for_faces_raise_at (pre : list face_in) (f : face_in)
      (post : list face_in) (s0 s2 s1 : state) (e : exn) :
  for_faces pre s0 = (Ok tt, s2) ->
  process_face f s2 = (Raise e, s1) ->
  for_faces (pre ++ f :: post) s0 = (Raise e, s1).
Proof.
  intros Hpre Hf. rewrite for_faces_app, Hpre.
  cbn [for_faces]. unfold bind. rewrite Hf. reflexivity.
Qed.

Lemma loop_body_detector_raise (fr : frame_in) (s : state) (e : exn) :
  read_r fr = Ok true -> cvtColor_r fr = Ok tt -> detector_r fr = Raise e ->
  loop_body fr s = (Raise e, after_detect s).
Proof.
  intros Hr Hc Hd. unfold loop_body, bind, extcall.
  rewrite Hr, Hc, Hd. reflexivity.
Qed.

(** An exception among the faces leaves the iteration: no display, no key
    poll. *)
Lemma loop_body_faces_raise (fr : frame_in) (faces : list face_in)
      (s s1 : state) (e : exn) :
  read_r fr = Ok true -> cvtColor_r fr = Ok tt -> detector_r fr = Ok faces ->
  for_faces faces (after_detect s) = (Raise e, s1) ->
  loop_body fr s = (Raise e, s1).
Proof.
  intros Hr Hc Hd Hf. unfold loop_body, bind at 1 2 3, extcall at 1 2 3.
  rewrite Hr, Hc, Hd. cbn [negb playing log].
  unfold bind at 1. fold (after_detect s). rewrite Hf. reflexivity.
Qed.

(** A service error, as the world gives it, makes the iteration raise. *)
Lemma service_error_raises (fr : frame_in) (s : state) (e : exn)
      (pre : list face_in) (s1 : state) :
  service_error fr s e pre s1 -> loop_body fr s = (Raise e, s1).
Proof.
  intros [Hr Hc Hd | pre' f post s2 Hr Hc Hd Hpre Hf].
  - apply loop_body_detector_raise; assumption.
  - apply (loop_body_faces_raise fr (pre' ++ f :: post)); try assumption.
    apply (for_faces_raise_at pre' f post _ s2); [exact Hpre |].
    apply process_face_predictor_raise. exact Hf.
Qed.

Lemma service_error_alarm (fr : frame_in) (s : state) (e : exn)
      (pre : list face_in) (s1 : state) :
  service_error fr s e pre s1 ->
  playing s1 = playing s || existsb face_signal pre
  /\ count_call MusicPlay s1
     = (count_call MusicPlay s + length (filter face_signal pre))%nat.
Proof.
  intros [Hr Hc Hd | pre' f post s2 Hr Hc Hd Hpre Hf].
  - cbn. rewrite orb_false_r. split; [reflexivity |].
    unfold count_call. cbn. lia.
  - apply for_faces_ok in Hpre as [Hp Hn].
    unfold count_call in *. cbn in *. split; assumption.
Qed.

(** C3, as stated, fails: the detector raising on the first frame ends the
    script with that exception, and so does the predictor raising on the
    second face of a frame; the next face and the next frame are never
    looked at. *)
Lemma detector_error_terminates :
  main (world_of [failing_frame; drowsy_frame]) init
  = (Raise (ExternalError "detector"%string),
     mkState false [DestroyAllWindows; CapRelease; Detect; CvtColor; CapRead])
  /\ count_call CapRead
       (snd (main (world_of [failing_frame; drowsy_frame]) init)) = 1%nat
  /\ main (world_of [unpredictable_frame; drowsy_frame]) init
     = (Raise (ExternalError "predictor"%string),
        mkState true [DestroyAllWindows; CapRelease; Predict; MusicPlay;
                      Print; Predict; Detect; CvtColor; CapRead]).
Proof. split; [| split]; reflexivity. Qed.

(** C3, amended: when the detector raises on a frame, or the predictor on
    one of its faces after the faces before it were processed, the loop
    ends at that call: the faces and frames still to come play no part, the
    finally block runs, and the exception leaves the script (a
    KeyboardInterrupt is swallowed and the script returns); no alarm
    command follows the failing call, and the AlarmState is the one held
    before the frame unless a face processed before the failure started
    the alarm. *)
Theorem service_error_ends_loop :
  forall (fr : frame_in) (rest : list frame_in) (s : state) (e : exn)
         (pre : list face_in) (s1 : state),
    service_error fr s e pre s1 ->
    while_true (fr :: rest) s = (Raise e, s1)
    /\ (forall w : world,
          frames w = fr :: rest ->
          fst (main w s) <> Ok Running
          /\ snd (main w s) = after_cleanup w s1
          /\ playing (snd (main w s)) = playing s1
          /\ count_call MusicPlay (snd (main w s)) = count_call MusicPlay s1
          /\ (release_r w = Ok tt -> destroyAllWindows_r w = Ok tt ->
              fst (main w s)
              = match e with
                | KeyboardInterrupt => Ok Returned
                | _ => Raise e
                end))
    /\ count_call MusicPlay s1
       = (count_call MusicPlay s + length (filter face_signal pre))%nat
    /\ playing s1 = playing s || existsb face_signal pre
    /\ (existsb face_signal pre = false -> alarm_state s1 = alarm_state s).
Proof.
  intros fr rest s e pre s1 Herr.
  pose proof (service_error_raises fr s e pre s1 Herr) as Hbody.
  pose proof (while_true_raise fr rest s s1 e Hbody) as Hloop.
  destruct (service_error_alarm fr s e pre s1 Herr) as [Hplaying Hplays].
  split; [exact Hloop |]. split; [| split; [exact Hplays | split]].
  - intros w Hw.
    assert (Hexit : fst (main w s) <> Ok Running).
    { unfold main. rewrite Hw, Hloop. unfold cleanup, bind, extcall, lift, ret.
      destruct e, (release_r w) as [[] | e1],
        (destroyAllWindows_r w) as [[] | e2]; discriminate. }
    split; [exact Hexit |].
    rewrite (main_exit_state w s Hexit), Hw, Hloop. cbn [snd].
    split; [reflexivity |].
    split; [unfold after_cleanup; destruct (release_r w); reflexivity |].
    split; [unfold after_cleanup, count_call;
            destruct (release_r w); reflexivity |].
    intros Hr Hd. unfold main. rewrite Hw, Hloop.
    unfold cleanup, bind, extcall, lift, ret. rewrite Hr, Hd.
    destruct e; reflexivity.
  - exact Hplaying.
  - intros Hnone. apply alarm_state_playing.
    rewrite Hplaying, Hnone. apply orb_false_r.
Qed.

Lemma service_error_ends_loop_witness :
  (while_true [failing_frame; drowsy_frame] init
   = (Raise (ExternalError "detector"%string), after_detect init)
   /\ (forall w : world,
         frames w = [failing_frame; drowsy_frame] ->
         fst (main w init) <> Ok Running
         /\ snd (main w init) = after_cleanup w (after_detect init)
         /\ playing (snd (main w init)) = playing (after_detect init)
         /\ count_call MusicPlay (snd (main w init))
            = count_call MusicPlay (after_detect init)
         /\ (release_r w = Ok tt -> destroyAllWindows_r w = Ok tt ->
             fst (main w init) = Raise (ExternalError "detector"%string)))
   /\ count_call MusicPlay (after_detect init)
      = (count_call MusicPlay init + length (filter face_signal []))%nat
   /\ playing (after_detect init) = playing init || existsb face_signal []
   /\ (existsb face_signal [] = false ->
       alarm_state (after_detect init) = alarm_state init))
  /\ (while_true [unpredictable_frame; drowsy_frame] init
      = (Raise (ExternalError "predictor"%string),
         snd (loop_body unpredictable_frame init))
      /\ (forall w : world,
            frames w = [unpredictable_frame; drowsy_frame] ->
            fst (main w init) <> Ok Running
            /\ snd (main w init)
               = after_cleanup w (snd (loop_body unpredictable_frame init))
            /\ playing (snd (main w init))
               = playing (snd (loop_body unpredictable_frame init))
            /\ count_call MusicPlay (snd (main w init))
               = count_call MusicPlay (snd (loop_body unpredictable_frame init))
            /\ (release_r w = Ok tt -> destroyAllWindows_r w = Ok tt ->
                fst (main w init) = Raise (ExternalError "predictor"%string)))
      /\ count_call MusicPlay (snd (loop_body unpredictable_frame init))
         = (count_call MusicPlay init
            + length (filter face_signal [drowsy_face]))%nat
      /\ playing (snd (loop_body unpredictable_frame init))
         = playing init || existsb face_signal [drowsy_face]
      /\ (existsb face_signal [drowsy_face] = false ->
          alarm_state (snd (loop_body unpredictable_frame init))
          = alarm_state init)).
Proof.
  split.
  - apply (service_error_ends_loop
             failing_frame [drowsy_frame] init
             (ExternalError "detector"%string) [] (after_detect init)).
    apply detector_error; reflexivity.
  - apply (service_error_ends_loop
             unpredictable_frame [drowsy_frame] init
             (ExternalError "predictor"%string) [drowsy_face]
             (snd (loop_body unpredictable_frame init))).
    apply (predictor_error unpredictable_frame init
             (ExternalError "predictor"%string)
             [drowsy_face] unpredictable_face [awake_face]
             (snd (for_faces [drowsy_face] (after_detect init))));
      reflexivity.
Defined.

(** ** Landmark sets that are too short *)

(** C9, as stated, fails: sixty landmarks give the two contours and no
    error; ten landmarks raise IndexError, the face is not skipped and the
    script ends with that exception without looking at the next face or
    reading the next frame, whether the short face comes first or after
    another face. *)
Lemma short_landmarks_not_rejected :
  length landmarks_60 = 60%nat
  /\ extract_eyes landmarks_60 = Ok (scenario_A, scenario_B)
  /\ main (world_of [frame_of [face_of landmarks_10; drowsy_face] (-1);
                     drowsy_frame]) init
     = (Raise IndexError,
        mkState false [DestroyAllWindows; CapRelease; Predict; Detect;
                       CvtColor; CapRead])
  /\ main (world_of [short_face_frame; drowsy_frame]) init
     = (Raise IndexError,
        mkState true [DestroyAllWindows; CapRelease; Predict; MusicPlay;
                      Print; Predict; Detect; CvtColor; CapRead]).
Proof. repeat split. Qed.

(** C9, amended: for a landmark set of fewer than 68 points, with at least
    48 points the extractor returns the contours of indices 36..41 and
    42..47 and no error; with fewer than 48 points the part accessor raises
    IndexError, which nothing handles per face: wherever the face stands
    among the faces of the frame, once the faces before it are processed
    the faces after it and the frames still to come are not, and the loop
    ends with IndexError. *)
Theorem short_landmarks_extracted_or_fatal :
  forall lm : landmarks,
    (length lm < 68)%nat ->
    ((48 <= length lm)%nat ->
     extract_eyes lm = Ok (firstn 6 (skipn 36 lm), firstn 6 (skipn 42 lm)))
    /\ ((length lm < 48)%nat ->
        extract_eyes lm = Raise IndexError
        /\ forall (fr : frame_in) (rest : list frame_in)
                  (pre : list face_in) (f : face_in) (post : list face_in)
                  (s s2 : state),
             read_r fr = Ok true -> cvtColor_r fr = Ok tt ->
             detector_r fr = Ok (pre ++ f :: post) ->
             for_faces pre (after_detect s) = (Ok tt, s2) ->
             predictor_r f = Ok lm ->
             for_faces (pre ++ f :: post) (after_detect s)
             = (Raise IndexError, mkState (playing s2) (Predict :: log s2))
             /\ while_true (fr :: rest) s
                = (Raise IndexError,
                   mkState (playing s2) (Predict :: log s2))).
Proof.
  intros lm _. split; [apply extract_eyes_slices |].
  intros Hshort. split; [apply extract_eyes_short; exact Hshort |].
  intros fr rest pre f post s s2 Hr Hc Hd Hpre Hf.
  assert (Hfaces : for_faces (pre ++ f :: post) (after_detect s)
                   = (Raise IndexError,
                      mkState (playing s2) (Predict :: log s2))).
  { apply (for_faces_raise_at pre f post _ s2); [exact Hpre |].
    apply (process_face_short f lm); assumption. }
  split; [exact Hfaces |].
  apply while_true_raise.
  apply (loop_body_faces_raise fr (pre ++ f :: post)); assumption.
Qed.

Lemma short_landmarks_extracted_or_fatal_witness :
  extract_eyes landmarks_60
  = Ok (firstn 6 (skipn 36 landmarks_60), firstn 6 (skipn 42 landmarks_60))
  /\ extract_eyes landmarks_10 = Raise IndexError
  /\ for_faces ([drowsy_face] ++ face_of landmarks_10 :: [awake_face])
       (after_detect init)
     = (Raise IndexError,
        mkState true [Predict; MusicPlay; Print; Predict; Detect; CvtColor;
                      CapRead])
  /\ while_true [short_face_frame; drowsy_frame] init
     = (Raise IndexError,
        mkState true [Predict; MusicPlay; Print; Predict; Detect; CvtColor;
                      CapRead]).
Proof.
  split.
  - apply (short_landmarks_extracted_or_fatal landmarks_60);
      vm_compute; lia.
  - assert (H10 : (length landmarks_10 < 68)%nat) by (vm_compute; lia).
    assert (H10' : (length landmarks_10 < 48)%nat) by (vm_compute; lia).
    destruct (proj2 (short_landmarks_extracted_or_fatal landmarks_10 H10) H10')
      as [Hx Hfatal].
    split; [exact Hx |].
    apply (Hfatal short_face_frame [drowsy_frame] [drowsy_face]
             (face_of landmarks_10) [awake_face] init
             (snd (for_faces [drowsy_face] (after_detect init))));
      reflexivity.
Defined.

(** * Further properties of the script *)

(** ** The verdict of one eye: errors, symmetries, bounds *)

Lemma eyes_closed_nth (eye_points : list point) :
  eyes_closed eye_points
  = match nth_error eye_points 0, nth_error eye_points 1 with
    | Some a, Some b => Ok (Np.norm_ltb (Np.sub a b) threshold)
    | _, _ => Raise IndexError
    end.
Proof. destruct eye_points as [| p0 [| p1 rest]]; reflexivity. Qed.

(** X1: [eyes_closed] raises IndexError exactly on the contours of fewer
    than two rows, and returns a verdict exactly on the others. *)
Theorem eyes_closed_index_error :
  forall eye_points : list point,
    (eyes_closed eye_points = Raise IndexError
     <-> (length eye_points < 2)%nat)
    /\ ((exists closed, eyes_closed eye_points = Ok closed)
        <-> (2 <= length eye_points)%nat).
Proof.
  intros [| p0 [| p1 rest]]; cbn [length]; (split; split).
  all: try (intros _; lia).
  all: try (intros _; reflexivity).
  all: try (intros [b Hb]; discriminate).
  all: try (intros H; lia).
  - rewrite eyes_closed_cons2. discriminate.
  - intros _. eexists. apply eyes_closed_cons2.
Qed.

(** Negating a difference changes the wrapped value by its sign at most. *)
Lemma wrap64_opp_square (z : Z) :
  Np.wrap64 (- z) * Np.wrap64 (- z) = Np.wrap64 z * Np.wrap64 z.
Proof.
  unfold Np.wrap64.
  change (2 ^ 64) with 18446744073709551616.
  change (2 ^ 63) with 9223372036854775808.
  pose proof (Z.div_mod (z + 9223372036854775808) 18446744073709551616) as H1.
  pose proof (Z.div_mod (- z + 9223372036854775808) 18446744073709551616) as H2.
  pose proof (Z.mod_pos_bound (z + 9223372036854775808) 18446744073709551616)
    as B1.
  pose proof (Z.mod_pos_bound (- z + 9223372036854775808) 18446744073709551616)
    as B2.
  specialize (H1 ltac:(lia)). specialize (H2 ltac:(lia)).
  specialize (B1 ltac:(lia)). specialize (B2 ltac:(lia)).
  set (a := (z + 9223372036854775808) mod 18446744073709551616) in *.
  set (b := (- z + 9223372036854775808) mod 18446744073709551616) in *.
  set (q1 := (z + 9223372036854775808) / 18446744073709551616) in *.
  set (q2 := (- z + 9223372036854775808) / 18446744073709551616) in *.
  assert (Hab : a + b = 0 \/ a + b = 18446744073709551616) by lia.
  destruct Hab as [Hab | Hab].
  - assert (a = 0) by lia. assert (b = 0) by lia. subst a b.
    replace ((z + 9223372036854775808) mod 18446744073709551616) with 0 by lia.
    replace ((- z + 9223372036854775808) mod 18446744073709551616) with 0 by lia.
    reflexivity.
  - replace (b - 9223372036854775808) with (- (a - 9223372036854775808)) by lia.
    ring.
Qed.

Lemma sqnorm_sub_swap (p q : point) :
  Np.sqnorm (Np.sub q p) = Np.sqnorm (Np.sub p q).
Proof.
  unfold Np.sqnorm, Np.sub; cbn [fst snd].
  replace (fst q - fst p) with (- (fst p - fst q)) by lia.
  replace (snd q - snd p) with (- (snd p - snd q)) by lia.
  rewrite !wrap64_opp_square. reflexivity.
Qed.

Lemma sqnorm_sub_mirror (width : Z) (p q : point) :
  Np.sqnorm (Np.sub (mirror width p) (mirror width q))
  = Np.sqnorm (Np.sub p q).
Proof.
  unfold Np.sqnorm, Np.sub, mirror; cbn [fst snd].
  replace (width - 1 - fst p - (width - 1 - fst q))
    with (- (fst p - fst q)) by lia.
  rewrite wrap64_opp_square. reflexivity.
Qed.

Lemma norm_ltb_sqnorm (u v : point) (t : Z) :
  Np.sqnorm u = Np.sqnorm v -> Np.norm_ltb u t = Np.norm_ltb v t.
Proof. unfold Np.norm_ltb. intros ->. reflexivity. Qed.

Lemma norm_sqnorm (u v : point) :
  Np.sqnorm u = Np.sqnorm v -> Np.norm u = Np.norm v.
Proof. unfold Np.norm. intros ->. reflexivity. Qed.

(** X2: exchanging the first two points of a contour changes neither the
    verdict nor the score, int64 wrap-around included. *)
Theorem eyes_closed_swap_first_two :
  forall (p0 p1 : point) (rest : list point),
    eyes_closed (p1 :: p0 :: rest) = eyes_closed (p0 :: p1 :: rest)
    /\ closure_score (p1 :: p0 :: rest) = closure_score (p0 :: p1 :: rest).
Proof.
  intros p0 p1 rest. split.
  - rewrite !eyes_closed_cons2. f_equal.
    apply norm_ltb_sqnorm, sqnorm_sub_swap.
  - rewrite !closure_score_cons2. f_equal.
    apply norm_sqnorm, sqnorm_sub_swap.
Qed.

(** X3: the verdict and the score of a contour are those of its mirror
    image in a horizontally flipped picture of any width. *)
Theorem eyes_closed_mirror_invariant :
  forall (width : Z) (eye_points : list point),
    eyes_closed (map (mirror width) eye_points) = eyes_closed eye_points
    /\ closure_score (map (mirror width) eye_points)
       = closure_score eye_points.
Proof.
  intros width [| p0 [| p1 rest]]; split; try reflexivity; cbn [map].
  - rewrite !eyes_closed_cons2. f_equal.
    apply norm_ltb_sqnorm, sqnorm_sub_mirror.
  - rewrite !closure_score_cons2. f_equal.
    apply norm_sqnorm, sqnorm_sub_mirror.
Qed.

(** X4: for points in pixel range, an eye is closed as soon as the two
    coordinate gaps of its first two points add up to less than 15, and
    only if each gap is below 15. *)
Theorem eyes_closed_gap_bounds :
  forall (p0 p1 : point) (rest : list point),
    pixel p0 -> pixel p1 ->
    (Z.abs (fst p0 - fst p1) + Z.abs (snd p0 - snd p1) < 15 ->
     eyes_closed (p0 :: p1 :: rest) = Ok true)
    /\ (eyes_closed (p0 :: p1 :: rest) = Ok true ->
        Z.abs (fst p0 - fst p1) < 15 /\ Z.abs (snd p0 - snd p1) < 15).
Proof.
  intros p0 p1 rest H0 H1.
  rewrite eyes_closed_cons2, (sub_pixel p0 p1 H0 H1).
  unfold Np.norm_ltb, Np.sqnorm, threshold; cbn [fst snd].
  set (dx := fst p0 - fst p1). set (dy := snd p0 - snd p1).
  split.
  - intros Hsum. f_equal. apply andb_true_iff. split; [reflexivity |].
    apply Z.ltb_lt. nia.
  - intros H. injection H as H.
    change ((dx * dx + dy * dy <? 15 * 15) = true) in H.
    apply Z.ltb_lt in H. split; nia.
Qed.

Lemma eyes_closed_gap_bounds_witness :
  (Z.abs (fst (0, 0) - fst (0, 10)) + Z.abs (snd (0, 0) - snd (0, 10)) < 15 ->
   eyes_closed scenario_A = Ok true)
  /\ (eyes_closed scenario_A = Ok true ->
      Z.abs (fst (0, 0) - fst (0, 10)) < 15
      /\ Z.abs (snd (0, 0) - snd (0, 10)) < 15).
Proof.
  apply (eyes_closed_gap_bounds (0, 0) (0, 10) [(1, 9); (2, 8); (2, 1); (1, 0)]);
    apply pixel_small; cbn; lia.
Defined.

(** ** The quit key *)

(** X5: the key poll only looks at the low byte of [waitKey]'s answer: the
    loop is left exactly when that byte is 113, whatever the bits above;
    the answer [-1] of a poll without a key never leaves it. *)
Theorem is_quit_key_low_byte :
  forall k : Z,
    (is_quit_key k = true <-> k mod 256 = 113)
    /\ (forall n : Z, is_quit_key (k + 256 * n) = is_quit_key k)
    /\ is_quit_key (-1) = false.
Proof.
  intros k.
  assert (Hland : forall z, Z.land z 255 = z mod 256).
  { intros z. change 255 with (Z.ones 8). rewrite Z.land_ones by lia.
    reflexivity. }
  unfold is_quit_key. split; [| split].
  - rewrite Hland. apply Z.eqb_eq.
  - intros n. rewrite !Hland. f_equal.
    rewrite (Z.mul_comm 256 n). apply Z.mod_add. lia.
  - reflexivity.
Qed.

(** ** The verdict of one face *)

Lemma both_closed_nth (le re le' re' : list point) :
  nth_error le 0 = nth_error le' 0 -> nth_error le 1 = nth_error le' 1 ->
  nth_error re 0 = nth_error re' 0 -> nth_error re 1 = nth_error re' 1 ->
  both_closed le re = both_closed le' re'.
Proof.
  intros A0 A1 B0 B1. unfold both_closed.
  rewrite (eyes_closed_nth le), (eyes_closed_nth re),
    (eyes_closed_nth le'), (eyes_closed_nth re').
  rewrite A0, A1, B0, B1. reflexivity.
Qed.

(** X6: the verdict on a face only depends on four of its landmarks: 36 and
    37 for the left eye, 42 and 43 for the right eye. *)
Theorem face_signal_four_landmarks :
  forall (lm lm' : landmarks) (f f' : face_in),
    predictor_r f = Ok lm -> predictor_r f' = Ok lm' ->
    (48 <= length lm)%nat -> (48 <= length lm')%nat ->
    (forall i : nat, In i [36; 37; 42; 43]%nat ->
                     nth_error lm i = nth_error lm' i) ->
    face_signal f = face_signal f'.
Proof.
  intros lm lm' f f' Hf Hf' Hlen Hlen' Hsame.
  unfold face_signal. rewrite Hf, Hf'.
  rewrite (extract_eyes_slices lm Hlen), (extract_eyes_slices lm' Hlen').
  rewrite (both_closed_nth _ _ (firstn 6 (skipn 36 lm'))
             (firstn 6 (skipn 42 lm'))); [reflexivity | | | |].
  all: rewrite !slice_nth_error by lia; apply Hsame; cbn; tauto.
Qed.

Lemma face_signal_four_landmarks_witness :
  face_signal (face_of (sample_landmarks scenario_A scenario_A))
  = face_signal
      (face_of (repeat (5, 5) 36 ++ [(0, 0); (0, 10)] ++ repeat (7, 7) 4
                ++ [(0, 0); (0, 10)] ++ repeat (9, 9) 30)).
Proof.
  apply (face_signal_four_landmarks
           (sample_landmarks scenario_A scenario_A)
           (repeat (5, 5) 36 ++ [(0, 0); (0, 10)] ++ repeat (7, 7) 4
            ++ [(0, 0); (0, 10)] ++ repeat (9, 9) 30)).
  - reflexivity.
  - reflexivity.
  - vm_compute. lia.
  - vm_compute. lia.
  - intros i [<- | [<- | [<- | [<- | []]]]]; reflexivity.
Defined.

Lemma parts_map (g : point -> point) (lm : landmarks) (idxs : list nat) :
  parts (map g lm) idxs
  = match parts lm idxs with
    | Ok ps => Ok (map g ps)
    | Raise e => Raise e
    end.
Proof.
  induction idxs as [| i rest IH]; cbn [parts]; [reflexivity |].
  unfold part, Np.index. rewrite nth_error_map.
  destruct (nth_error lm i) as [p |]; cbn [option_map res_bind];
    [| reflexivity].
  rewrite IH. destruct (parts lm rest); reflexivity.
Qed.

Lemma extract_eyes_map (g : point -> point) (lm : landmarks) :
  extract_eyes (map g lm)
  = match extract_eyes lm with
    | Ok (left_eye, right_eye) => Ok (map g left_eye, map g right_eye)
    | Raise e => Raise e
    end.
Proof.
  unfold extract_eyes. rewrite !parts_map.
  destruct (parts lm left_eye_indices) as [le | e]; [| reflexivity].
  destruct (parts lm right_eye_indices) as [re | e]; reflexivity.
Qed.

Lemma eyes_closed_translate (d : point) (eye_points : list point) :
  eyes_closed (translate d eye_points) = eyes_closed eye_points.
Proof.
  destruct eye_points as [| p0 [| p1 rest]]; try reflexivity.
  cbn [translate map]. rewrite !eyes_closed_cons2, sub_translate.
  reflexivity.
Qed.

(** X7: moving the whole landmark set of a face by one offset, as when the
    head moves in the picture, leaves the verdict on the face unchanged;
    this holds for landmark sets of any length. *)
Theorem face_signal_translation_invariant :
  forall (d : point) (lm : landmarks) (f f' : face_in),
    predictor_r f = Ok lm ->
    predictor_r f' = Ok (translate d lm) ->
    face_signal f' = face_signal f.
Proof.
  intros d lm f f' Hf Hf'. unfold face_signal. rewrite Hf, Hf'.
  unfold translate at 1. rewrite extract_eyes_map.
  destruct (extract_eyes lm) as [[le re] | e]; [| reflexivity].
  unfold both_closed.
  change (map (fun p => (fst p + fst d, snd p + snd d)) le)
    with (translate d le).
  change (map (fun p => (fst p + fst d, snd p + snd d)) re)
    with (translate d re).
  rewrite !eyes_closed_translate. reflexivity.
Qed.

Lemma face_signal_translation_invariant_witness :
  face_signal
    (face_of (translate (100, -40) (sample_landmarks scenario_A scenario_B)))
  = face_signal winking_face.
Proof.
  apply (face_signal_translation_invariant
           (100, -40) (sample_landmarks scenario_A scenario_B)
           winking_face
           (face_of (translate (100, -40)
                       (sample_landmarks scenario_A scenario_B))));
    reflexivity.
Defined.

(** ** What one face, one iteration and one run add to the log *)

Lemma process_face_footprint (f : face_in) (s : state) :
  exists d : list call,
    log (snd (process_face f s)) = d ++ log s
    /\ In d [[Predict]; [Print; Predict]; [MusicPlay; Print; Predict]].
Proof.
  unfold process_face, bind, extcall, lift, music_play, ret.
  destruct (predictor_r f) as [lm | e];
    [| exists [Predict]; cbn; tauto].
  destruct (extract_eyes lm) as [[le re] | e];
    [| exists [Predict]; cbn; tauto].
  destruct (both_closed le re) as [[|] | e];
    [| exists [Predict]; cbn; tauto | exists [Predict]; cbn; tauto].
  destruct (print_r f) as [[] | e];
    [| exists [Print; Predict]; cbn; tauto].
  destruct (play_r f) as [[] | e];
    exists [MusicPlay; Print; Predict]; cbn; tauto.
Qed.

Lemma for_faces_footprint (faces : list face_in) :
  forall s : state,
  exists d : list call,
    log (snd (for_faces faces s)) = d ++ log s
    /\ (forall c, ~ In c [Predict; Print; MusicPlay] ->
                  count_occ call_eq_dec d c = 0%nat)
    /\ (count_occ call_eq_dec d MusicPlay <= count_occ call_eq_dec d Print)%nat
    /\ (count_occ call_eq_dec d Print <= count_occ call_eq_dec d Predict)%nat
    /\ (count_occ call_eq_dec d Predict <= length faces)%nat
    /\ (fst (for_faces faces s) = Ok tt ->
        count_occ call_eq_dec d Predict = length faces).
Proof.
  induction faces as [| f rest IH]; intros s; cbn [for_faces].
  - exists []. cbn. repeat split; auto.
  - unfold bind at 1 2.
    destruct (process_face_footprint f s) as (d1 & Hd1 & Hshape).
    assert (Hc1 : (forall c, ~ In c [Predict; Print; MusicPlay] ->
                             count_occ call_eq_dec d1 c = 0%nat)
                  /\ (count_occ call_eq_dec d1 MusicPlay
                      <= count_occ call_eq_dec d1 Print)%nat
                  /\ (count_occ call_eq_dec d1 Print
                      <= count_occ call_eq_dec d1 Predict)%nat
                  /\ count_occ call_eq_dec d1 Predict = 1%nat).
    { destruct Hshape as [<- | [<- | [<- | []]]]; cbn;
        (split; [intros c Hc; destruct c; cbn in *; tauto | lia]). }
    destruct Hc1 as (Hz1 & Hp1 & Hq1 & Hr1).
    destruct (process_face f s) as [[[] | e] s1]; cbn [snd] in Hd1.
    + destruct (IH s1) as (d2 & Hd2 & Hz2 & Hp2 & Hq2 & Hr2 & Hok).
      exists (d2 ++ d1). rewrite Hd2, Hd1, app_assoc.
      split; [reflexivity |]. rewrite !count_occ_app. cbn [length].
      split; [intros c Hc; rewrite count_occ_app, Hz1, Hz2 by exact Hc;
              reflexivity |].
      split; [lia |]. split; [lia |]. split; [lia |].
      intros H. rewrite (Hok H). lia.
    + exists d1. cbn [snd fst length].
      split; [exact Hd1 |]. split; [exact Hz1 |].
      split; [lia |]. split; [lia |]. split; [lia | discriminate].
Qed.

Lemma loop_body_continue_read (fr : frame_in) (s s' : state) :
  loop_body fr s = (Ok Continue, s') -> read_r fr = Ok true.
Proof.
  unfold loop_body, bind, extcall, ret.
  destruct (read_r fr) as [[|] | e]; cbn [negb];
    [reflexivity | discriminate | discriminate].
Qed.

(** X8: a processed frame costs exactly one read, one colour conversion,
    one detection, one display and one key poll, and one landmark
    prediction for each detected face. *)
Theorem processed_frame_calls :
  forall (fr : frame_in) (s s' : state) (c : ctl),
    processed fr s c s' ->
    count_call CapRead s' = (count_call CapRead s + 1)%nat
    /\ count_call CvtColor s' = (count_call CvtColor s + 1)%nat
    /\ count_call Detect s' = (count_call Detect s + 1)%nat
    /\ count_call Imshow s' = (count_call Imshow s + 1)%nat
    /\ count_call WaitKey s' = (count_call WaitKey s + 1)%nat
    /\ count_call Predict s'
       = (count_call Predict s + length (faces_of fr))%nat.
Proof.
  intros fr s s' c H.
  destruct (processed_inv fr s s' c H) as (faces & s1 & Hd & Hf & ->).
  destruct (for_faces_footprint faces
              (mkState (playing s) (Detect :: CvtColor :: CapRead :: log s)))
    as (d & Hlog & Hz & _ & _ & _ & Hok).
  rewrite Hf in Hlog, Hok. cbn [snd fst log] in Hlog, Hok.
  specialize (Hok eq_refl).
  unfold faces_of. rewrite Hd.
  unfold count_call; cbn [log]. rewrite Hlog. cbn.
  rewrite !count_occ_app. cbn. rewrite Hok.
  rewrite !Hz by (cbn; intuition discriminate).
  repeat split; lia.
Qed.

Lemma processed_frame_calls_witness :
  count_call CapRead (snd (loop_body winking_frame sounding))
  = (count_call CapRead sounding + 1)%nat
  /\ count_call CvtColor (snd (loop_body winking_frame sounding))
     = (count_call CvtColor sounding + 1)%nat
  /\ count_call Detect (snd (loop_body winking_frame sounding))
     = (count_call Detect sounding + 1)%nat
  /\ count_call Imshow (snd (loop_body winking_frame sounding))
     = (count_call Imshow sounding + 1)%nat
  /\ count_call WaitKey (snd (loop_body winking_frame sounding))
     = (count_call WaitKey sounding + 1)%nat
  /\ count_call Predict (snd (loop_body winking_frame sounding))
     = (count_call Predict sounding + length (faces_of winking_frame))%nat.
Proof.
  apply (processed_frame_calls winking_frame sounding
           (snd (loop_body winking_frame sounding)) Continue).
  split; reflexivity.
Defined.

(** ** Whole runs *)

Lemma while_true_cons_iterating (fr : frame_in) (rest : list frame_in)
      (s s' : state) :
  while_true (fr :: rest) s = (Ok Iterating, s') ->
  exists s1 : state,
    processed fr s Continue s1 /\ while_true rest s1 = (Ok Iterating, s').
Proof.
  cbn [while_true]. unfold bind at 1.
  destruct (loop_body fr s) as [[[|] | e] s1] eqn:Hb; try discriminate.
  intros H. exists s1. split; [| exact H].
  split; [apply (loop_body_continue_read fr s s1 Hb) | exact Hb].
Qed.

(** X9: as long as the loop goes on, the start commands issued are as many
    as the faces with both eyes closed over all the frames so far, and the
    alarm sounds exactly when it did at the start or some frame gave the
    signal. *)
Theorem run_starts_count_drowsy_faces :
  forall (frs : list frame_in) (s s' : state),
    while_true frs s = (Ok Iterating, s') ->
    count_call MusicPlay s' = (count_call MusicPlay s + total_drowsy frs)%nat
    /\ playing s' = playing s || existsb frame_signal frs.
Proof.
  unfold total_drowsy.
  induction frs as [| fr rest IH]; intros s s' H.
  - cbn in H. injection H as <-. cbn. rewrite orb_false_r. split; [lia | reflexivity].
  - apply while_true_cons_iterating in H as (s1 & Hfr & Hrest).
    apply processed_plays in Hfr as [Hp Hc].
    apply IH in Hrest as [Hc' Hp'].
    unfold list_sum in *. cbn [map fold_right existsb].
    rewrite Hc', Hc, Hp', Hp.
    split; [lia | symmetry; apply orb_assoc].
Qed.

Lemma run_starts_count_drowsy_faces_witness :
  count_call MusicPlay
    (snd (while_true [drowsy_frame; winking_frame; drowsy_frame] init))
  = (count_call MusicPlay init
     + total_drowsy [drowsy_frame; winking_frame; drowsy_frame])%nat
  /\ playing (snd (while_true [drowsy_frame; winking_frame; drowsy_frame] init))
     = playing init
       || existsb frame_signal [drowsy_frame; winking_frame; drowsy_frame].
Proof.
  apply (run_starts_count_drowsy_faces
           [drowsy_frame; winking_frame; drowsy_frame] init
           (snd (while_true [drowsy_frame; winking_frame; drowsy_frame] init))).
  reflexivity.
Defined.

(** X10: running the loop on two batches of frames is running it on the
    first and, if it is still iterating, on the second from the state
    reached; once the loop was left by [break] or by an exception, frames
    that follow change nothing. *)
Theorem while_true_app :
  forall (frs more : list frame_in) (s : state),
    while_true (frs ++ more) s
    = match while_true frs s with
      | (Ok Iterating, s1) => while_true more s1
      | other => other
      end.
Proof.
  induction frs as [| fr rest IH]; intros more s.
  - reflexivity.
  - cbn [app while_true]. unfold bind.
    destruct (loop_body fr s) as [[[|] | e] s1]; [apply IH | |]; reflexivity.
Qed.

Lemma loop_body_footprint (fr : frame_in) (s : state) :
  exists d : list call,
    log (snd (loop_body fr s)) = d ++ log s
    /\ (count_occ call_eq_dec d MusicPlay <= count_occ call_eq_dec d Print)%nat
    /\ (count_occ call_eq_dec d Print <= count_occ call_eq_dec d Predict)%nat
    /\ (count_occ call_eq_dec d Predict <= length (faces_of fr))%nat.
Proof.
  unfold loop_body, bind, extcall, ret, faces_of.
  destruct (read_r fr) as [[|] | e]; cbn [negb];
    [| exists [CapRead]; cbn; repeat split; lia
     | exists [CapRead]; cbn; repeat split; lia].
  destruct (cvtColor_r fr) as [[] | e];
    [| exists [CvtColor; CapRead]; cbn; repeat split; lia].
  destruct (detector_r fr) as [faces | e];
    [| exists [Detect; CvtColor; CapRead]; cbn; repeat split; lia].
  cbn [playing log].
  destruct (for_faces_footprint faces
              (mkState (playing s) (Detect :: CvtColor :: CapRead :: log s)))
    as (d & Hlog & _ & Hp & Hq & Hr & _).
  cbn [log] in Hlog.
  destruct (for_faces faces _) as [[[] | e] s1]; cbn [snd] in Hlog.
  - destruct (imshow_r fr) as [[] | e].
    + exists (WaitKey :: Imshow :: d ++ [Detect; CvtColor; CapRead]).
      split.
      * destruct (waitKey_r fr) as [k | e]; [destruct (is_quit_key k) |];
          cbn [snd log app]; rewrite Hlog, <- app_assoc; reflexivity.
      * cbn. rewrite !count_occ_app. cbn. repeat split; lia.
    + exists (Imshow :: d ++ [Detect; CvtColor; CapRead]).
      split; [cbn [snd log app]; rewrite Hlog, <- app_assoc; reflexivity |].
      cbn. rewrite !count_occ_app. cbn. repeat split; lia.
  - exists (d ++ [Detect; CvtColor; CapRead]).
    split; [cbn [snd]; rewrite Hlog, <- app_assoc; reflexivity |].
    rewrite !count_occ_app. cbn. repeat split; lia.
Qed.

Lemma while_true_footprint (frs : list frame_in) :
  forall s : state,
  exists d : list call,
    log (snd (while_true frs s)) = d ++ log s
    /\ (count_occ call_eq_dec d MusicPlay <= count_occ call_eq_dec d Print)%nat
    /\ (count_occ call_eq_dec d Print <= count_occ call_eq_dec d Predict)%nat
    /\ (count_occ call_eq_dec d Predict
        <= list_sum (map (fun fr => length (faces_of fr)) frs))%nat.
Proof.
  induction frs as [| fr rest IH]; intros s; cbn [while_true].
  - exists []. cbn. repeat split; lia.
  - unfold bind.
    destruct (loop_body_footprint fr s) as (d1 & Hd1 & Hp1 & Hq1 & Hr1).
    destruct (loop_body fr s) as [[[|] | e] s1]; cbn [snd] in Hd1.
    + destruct (IH s1) as (d2 & Hd2 & Hp2 & Hq2 & Hr2).
      exists (d2 ++ d1). rewrite Hd2, Hd1, app_assoc.
      split; [reflexivity |]. rewrite !count_occ_app.
      unfold list_sum in *. cbn [map fold_right]. repeat split; lia.
    + exists d1. unfold list_sum. cbn [snd ret map fold_right].
      repeat split; try assumption; lia.
    + exists d1. unfold list_sum. cbn [snd map fold_right].
      repeat split; try assumption; lia.
Qed.

Lemma main_log (w : world) (s : state) :
  exists t : list call,
    log (snd (main w s)) = t ++ log (snd (while_true (frames w) s))
    /\ In t [[]; [CapRelease]; [DestroyAllWindows; CapRelease]]
    /\ playing (snd (main w s)) = playing (snd (while_true (frames w) s)).
Proof.
  assert (Hcleanup : forall (A : Type) (k : M A) (s1 : state),
             (forall s0, snd (k s0) = s0) ->
             exists t : list call,
               log (snd ((cleanup w ;; k)%eff s1)) = t ++ log s1
               /\ In t [[]; [CapRelease]; [DestroyAllWindows; CapRelease]]
               /\ playing (snd ((cleanup w ;; k)%eff s1)) = playing s1).
  { intros A k s1 Hk. rewrite (cleanup_state w k s1 Hk). unfold after_cleanup.
    destruct (release_r w) as [[] | e1].
    - exists [DestroyAllWindows; CapRelease]. cbn. tauto.
    - exists [CapRelease]. cbn. tauto. }
  unfold main.
  destruct (while_true (frames w) s) as [[[|] | e] s1]; cbn [snd].
  - apply Hcleanup. reflexivity.
  - exists []. cbn. tauto.
  - destruct e; apply Hcleanup; reflexivity.
Qed.

(** X11: in every run of the script from the start, whatever raises on the
    way, a start command was issued at most once for each message printed,
    a message printed at most once for each landmark prediction, and a
    prediction made at most once for each detected face. *)
Theorem start_announced_and_bounded :
  forall w : world,
    (count_call MusicPlay (snd (main w init))
     <= count_call Print (snd (main w init)))%nat
    /\ (count_call Print (snd (main w init))
        <= count_call Predict (snd (main w init)))%nat
    /\ (count_call Predict (snd (main w init))
        <= list_sum (map (fun fr => length (faces_of fr)) (frames w)))%nat.
Proof.
  intros w.
  destruct (main_log w init) as (t & Hlog & Ht & _).
  destruct (while_true_footprint (frames w) init) as (d & Hd & Hp & Hq & Hr).
  unfold count_call. rewrite Hlog, Hd. cbn [init log].
  rewrite !count_occ_app.
  destruct Ht as [<- | [<- | [<- | []]]]; cbn; repeat split; lia.
Qed.

(** X12: no run of the script turns the alarm off: when the track is
    playing before, it is playing after the loop and after the cleanup,
    whether the script returned, raised or is still iterating. *)
Theorem main_never_stops_alarm :
  forall (w : world) (s : state),
    playing s = true -> playing (snd (main w s)) = true.
Proof.
  intros w s H.
  destruct (main_log w s) as (_ & _ & _ & ->).
  revert H. apply (while_true_preserves latch); unfold latch.
  - auto.
  - auto.
  - intros c' s' _ H. exact H.
  - intros r s' H. by_call.
Qed.

Lemma main_never_stops_alarm_witness :
  playing (snd (main (world_of [winking_frame; quit_frame]) sounding)) = true.
Proof.
  apply (main_never_stops_alarm (world_of [winking_frame; quit_frame]) sounding).
  reflexivity.
Defined.

(** X13: when the camera gives no frame ([ret] false), the script returns
    normally after that single read and the cleanup: nothing is converted,
    detected or shown, no exception is raised and the mixer is untouched. *)
Theorem camera_failure_returns_quietly :
  forall (w : world) (fr : frame_in) (rest : list frame_in) (s : state),
    frames w = fr :: rest ->
    read_r fr = Ok false ->
    release_r w = Ok tt -> destroyAllWindows_r w = Ok tt ->
    main w s
    = (Ok Returned,
       mkState (playing s)
         (DestroyAllWindows :: CapRelease :: CapRead :: log s)).
Proof.
  intros w fr rest s Hw Hread Hr Hd.
  unfold main. rewrite Hw.
  rewrite (while_true_break fr rest s _ (camera_failure_breaks fr s Hread)).
  unfold cleanup, bind, extcall, ret. rewrite Hr, Hd. reflexivity.
Qed.

Lemma camera_failure_returns_quietly_witness :
  main (world_of [mkFrame (Ok false) (Ok tt) (Ok [drowsy_face]) (Ok tt) (Ok 113);
                  drowsy_frame]) sounding
  = (Ok Returned,
     mkState (playing sounding)
       (DestroyAllWindows :: CapRelease :: CapRead :: log sounding)).
Proof.
  apply (camera_failure_returns_quietly
           (world_of [mkFrame (Ok false) (Ok tt) (Ok [drowsy_face]) (Ok tt)
                        (Ok 113); drowsy_frame])
           (mkFrame (Ok false) (Ok tt) (Ok [drowsy_face]) (Ok tt) (Ok 113))
           [drowsy_frame] sounding); reflexivity.
Defined.

(** X14: when the cleanup calls return, the script ends in an exception
    exactly when the loop raised one other than KeyboardInterrupt, and it is
    that exception. *)
Theorem main_raises_iff_loop_raises :
  forall (w : world) (s : state) (e : exn),
    release_r w = Ok tt -> destroyAllWindows_r w = Ok tt ->
    (fst (main w s) = Raise e
     <-> fst (while_true (frames w) s) = Raise e /\ e <> KeyboardInterrupt).
Proof.
  intros w s e Hr Hd.
  unfold main, cleanup, bind, extcall, lift, ret. rewrite Hr, Hd.
  destruct (while_true (frames w) s) as [[[|] | e0] s1]; cbn [fst].
  - split; [discriminate | intros [H _]; discriminate].
  - split; [discriminate | intros [H _]; discriminate].
  - destruct e0; cbn [fst].
    + split; [discriminate |].
      intros [H Hne]. injection H as <-. exfalso. apply Hne. reflexivity.
    + split; [| intros [H _]; injection H as <-; reflexivity].
      intros H. injection H as <-. split; [reflexivity | discriminate].
    + split; [| intros [H _]; injection H as <-; reflexivity].
      intros H. injection H as <-. split; [reflexivity | discriminate].
Qed.

Lemma main_raises_iff_loop_raises_witness :
  fst (main (world_of [failing_frame; drowsy_frame]) init)
  = Raise (ExternalError "detector"%string)
  <-> fst (while_true (frames (world_of [failing_frame; drowsy_frame])) init)
      = Raise (ExternalError "detector"%string)
      /\ ExternalError "detector"%string <> KeyboardInterrupt.
Proof.
  apply (main_raises_iff_loop_raises
           (world_of [failing_frame; drowsy_frame]) init
           (ExternalError "detector"%string)); reflexivity.
Defined.

(** X15: when [cap.release()] raises on the way out, its exception is the
    one that leaves the script, replacing any exception of the loop, and
    [destroyAllWindows] is not called. *)
Theorem release_error_masks_and_skips_destroy :
  forall (w : world) (s : state) (e : exn),
    release_r w = Raise e ->
    fst (main w s) <> Ok Running ->
    fst (main w s) = Raise e
    /\ count_call DestroyAllWindows (snd (main w s))
       = count_call DestroyAllWindows s
    /\ last_call (snd (main w s)) = Some CapRelease.
Proof.
  intros w s e Hr Hexit.
  rewrite (main_exit_state w s Hexit).
  pose proof (while_true_same_count DestroyAllWindows (frames w) s) as Hdes.
  unfold after_cleanup, last_call, count_call in *. rewrite Hr. cbn.
  split; [| split; [apply Hdes; cbn; tauto | reflexivity]].
  revert Hexit. unfold main, cleanup, bind, extcall, lift, ret. rewrite Hr.
  destruct (while_true (frames w) s) as [[[|] | e0] s1]; cbn [fst].
  - reflexivity.
  - intros H. exfalso. apply H. reflexivity.
  - destruct e0; reflexivity.
Qed.

Lemma release_error_masks_and_skips_destroy_witness :
  fst (main (mkWorld [failing_frame] (Raise IndexError) (Ok tt)) init)
  = Raise IndexError
  /\ count_call DestroyAllWindows
       (snd (main (mkWorld [failing_frame] (Raise IndexError) (Ok tt)) init))
     = count_call DestroyAllWindows init
  /\ last_call
       (snd (main (mkWorld [failing_frame] (Raise IndexError) (Ok tt)) init))
     = Some CapRelease.
Proof.
  apply (release_error_masks_and_skips_destroy
           (mkWorld [failing_frame] (Raise IndexError) (Ok tt)) init IndexError).
  - reflexivity.
  - vm_compute. discriminate.
Defined.
